(** * Guygentic: conversation stack, branch bookkeeping and message builder

    A shallow embedding of [ConversationNode], [ConversationStack] and
    [MessageBuilder] of [Guygentic.py], together with the part of
    [collections.deque] and of [str] that these classes rely on.

    Python values are modelled as follows.
    - [int]                      : [Z]
    - [str]                      : [pystr], a list of Unicode code points
    - a value that may be [None] : [option]
    - [deque(maxlen=n)]          : a list of items (leftmost first) and the bound
    - the [branches] dict        : [gmap Z (list Z)]
    - a raised exception         : the [Raise] outcome of [result]
    - [datetime.now()]           : an explicit argument [now] of the operations
                                   that create a node

    A method that changes [self] returns the new [self] next to its result.
    [max_size] is an [int]: the unbounded [deque(maxlen=None)] is left out;
    the range of [Py_ssize_t] is that of a 64-bit build.
    The builder's list is a value here; that [get_message] hands out the
    very list that [clear] empties plays no role in what follows. *)

From Stdlib Require Import ZArith NArith Lia Ascii String.
From stdpp Require Import base numbers option list strings gmap.

#[local] Open Scope Z_scope.

(** ** Python strings *)

Module PyStr.

(** A [str] is a sequence of code points. *)
Definition pystr : Type := list N.

(** A literal written in ASCII. *)
Definition py (s : string) : pystr := N_of_ascii <$> list_ascii_of_string s.

(** [str.isspace] on one code point: the table of CPython's
    [_PyUnicode_IsWhitespace]. *)
Definition isspace (c : N) : bool :=
  ((9 <=? c) && (c <=? 13) ||
   (28 <=? c) && (c <=? 32) ||
   (c =? 133) || (c =? 160) || (c =? 5760) ||
   (8192 <=? c) && (c <=? 8202) ||
   (c =? 8232) || (c =? 8233) || (c =? 8239) || (c =? 8287) ||
   (c =? 12288))%N.

Fixpoint lstrip (s : pystr) : pystr :=
  match s with
  | [] => []
  | c :: s' => if isspace c then lstrip s' else s
  end.

Definition rstrip (s : pystr) : pystr := rev (lstrip (rev s)).

(** [s.strip()] with no argument. *)
Definition strip (s : pystr) : pystr := rstrip (lstrip s).

(** Truth value of a [str]: the empty string is false. *)
Definition truthy (s : pystr) : bool :=
  match s with [] => false | _ :: _ => true end.

(** Truth value of [content and content.strip()] where [content] is a
    [str] or [None]. *)
Definition nonblank (content : option pystr) : bool :=
  match content with
  | None => false
  | Some s => truthy s && truthy (strip s)
  end.

End PyStr.
Import PyStr.

(** ** Exceptions *)

Inductive exn : Type := IndexError | ValueError | OverflowError.

Inductive result (A : Type) : Type :=
| Ok (a : A)
| Raise (e : exn).
Arguments Ok {A} a.
Arguments Raise {A} e.

(** Sequencing: an exception skips the rest of the computation. *)
#[global] Instance result_bind : MBind result := λ A B k r,
  match r with
  | Ok a => k a
  | Raise e => Raise e
  end.

(** Evaluation of a list comprehension [[f(i) for i in l]]: left to right,
    the first exception aborts it. *)
Fixpoint comprehension {A B} (f : A → result B) (l : list A) : result (list B) :=
  match l with
  | [] => Ok []
  | a :: l' => b ← f a ; bs ← comprehension f l' ; Ok (b :: bs)
  end.

(** ** Slices and [collections.deque] *)

(** [l[start:]] *)
Definition slice_from {A} (l : list A) (start : Z) : list A :=
  let n := Z.of_nat (length l) in
  let start' := if start <? 0 then Z.max (start + n) 0 else Z.min start n in
  drop (Z.to_nat start') l.

Module Deque.

Record deque (A : Type) : Type := mk { items : list A; maxlen : Z }.
Arguments mk {A} items maxlen.
Arguments items {A} d.
Arguments maxlen {A} d.

(** [2 ** 63]: a [Py_ssize_t] of a 64-bit build holds the integers from
    [- ssize_bound] to [ssize_bound - 1]. *)
Definition ssize_bound : Z := 9223372036854775808.

(** [deque(maxlen=n)]: the bound is first converted to a [Py_ssize_t],
    which raises [OverflowError] for an integer that does not fit; then a
    negative bound is refused with [ValueError]. *)
Definition new {A} (n : Z) : result (deque A) :=
  if (n <? - ssize_bound) || (ssize_bound <=? n) then Raise OverflowError
  else if n <? 0 then Raise ValueError
  else Ok (mk [] n).

(** [len(d)] *)
Definition len {A} (d : deque A) : Z := Z.of_nat (length (items d)).

(** [d.append(x)]: the item is added on the right, then the leftmost
    item is discarded when the bound is exceeded. *)
Definition append {A} (d : deque A) (x : A) : deque A :=
  let l := items d ++ [x] in
  mk (if maxlen d <? Z.of_nat (length l) then tail l else l) (maxlen d).

(** [d[i]]: a negative index counts from the right. *)
Definition getitem {A} (d : deque A) (i : Z) : result A :=
  let i' := if i <? 0 then i + len d else i in
  if (0 <=? i') && (i' <? len d) then
    match items d !! Z.to_nat i' with
    | Some x => Ok x
    | None => Raise IndexError
    end
  else Raise IndexError.

(** [list(d)] *)
Definition to_list {A} (d : deque A) : list A := items d.

End Deque.

(** ** ConversationNode and ConversationStack *)

Record ConversationNode : Type := mkNode {
  system_prompt : option pystr;
  user_prompt : option pystr;
  ai_response : option pystr;
  timestamp : pystr;
  branch_id : Z;
  parent_index : option Z
}.

(** [ConversationNode(system_prompt, user_prompt, ai_response,
    branch_id=branch_id)]; the timestamp is the clock reading. *)
Definition ConversationNode__init__
    (system_prompt user_prompt ai_response : option pystr)
    (now : pystr) (branch_id : Z) : ConversationNode :=
  mkNode system_prompt user_prompt ai_response now branch_id None.

(** [node.parent_index = p] *)
Definition set_parent_index (node : ConversationNode) (p : option Z) : ConversationNode :=
  mkNode (system_prompt node) (user_prompt node) (ai_response node)
    (timestamp node) (branch_id node) p.

Record ConversationStack : Type := mkStack {
  stack : Deque.deque ConversationNode;
  branches : gmap Z (list Z);
  current_branch : Z
}.

(** [ConversationStack(max_size)] *)
Definition ConversationStack__init__ (max_size : Z) : result ConversationStack :=
  d ← Deque.new max_size ; Ok (mkStack d ∅ 0).

(** The arguments of one call of [push]; [now] is the clock reading. *)
Record push_args : Type := mkArgs {
  arg_system_prompt : option pystr;
  arg_user_prompt : option pystr;
  arg_ai_response : option pystr;
  arg_branch_id : option Z;
  arg_now : pystr
}.

(** The node that [push] builds. *)
Definition push_node (self : ConversationStack) (a : push_args) : ConversationNode :=
  ConversationNode__init__ (arg_system_prompt a) (arg_user_prompt a)
    (arg_ai_response a) (arg_now a)
    (default (current_branch self) (arg_branch_id a)).

(** [push]: "Push a new conversation node to the stack"; returns the
    "index of new node". *)
Definition push (self : ConversationStack) (a : push_args) : ConversationStack * Z :=
  let branch_id := default (current_branch self) (arg_branch_id a) in
  let node := push_node self a in
  let stack' := Deque.append (stack self) node in
  let branches1 :=
    match branches self !! branch_id with
    | None => <[branch_id := []]> (branches self)
    | Some _ => branches self
    end in
  let index := Deque.len stack' - 1 in
  let branches2 :=
    <[branch_id := default [] (branches1 !! branch_id) ++ [index]]> branches1 in
  (mkStack stack' branches2 (current_branch self), index).

(** [get_recent_conversation]: "Get the most recent conversation nodes",
    [list(self.stack)[-limit:]]. *)
Definition get_recent_conversation (self : ConversationStack) (limit : Z)
  : list ConversationNode :=
  slice_from (Deque.to_list (stack self)) (- limit).

(** [get_branch_conversation]: "Get conversation for a specific branch". *)
Definition get_branch_conversation (self : ConversationStack) (branch_id limit : Z)
  : result (list ConversationNode) :=
  match branches self !! branch_id with
  | None => Ok []
  | Some ids =>
      let indices := slice_from ids (- limit) in
      comprehension (Deque.getitem (stack self))
        (filter (λ i, i < Deque.len (stack self)) indices)
  end.

(** [create_branch]: "Create a new branch from an existing conversation
    point".  It changes [current_branch] before it reads the parent node,
    so the store is returned also when the call raises. *)
Definition create_branch (self : ConversationStack) (from_index : Z)
    (new_system_prompt new_user_prompt : option pystr) (now : pystr)
  : ConversationStack * result (option Z) :=
  if Deque.len (stack self) <=? from_index then (self, Ok None)
  else
    let cb := current_branch self + 1 in
    let self1 := mkStack (stack self) (branches self) cb in
    match Deque.getitem (stack self1) from_index with
    | Raise e => (self1, Raise e)
    | Ok parent_node =>
        let system_prompt :=
          match new_system_prompt with
          | Some s => Some s
          | None => system_prompt parent_node
          end in
        let user_prompt :=
          match new_user_prompt with
          | Some s => Some s
          | None => user_prompt parent_node
          end in
        let new_node :=
          set_parent_index
            (ConversationNode__init__ system_prompt user_prompt (Some []) now cb)
            (Some from_index) in
        let stack' := Deque.append (stack self1) new_node in
        let index := Deque.len stack' - 1 in
        (mkStack stack' (<[cb := [index]]> (branches self1)) cb, Ok (Some index))
    end.

(** [get_stack]: "Get all conversation nodes". *)
Definition get_stack (self : ConversationStack) : list ConversationNode :=
  Deque.to_list (stack self).

(** [get_item]: "Get a specific conversation node"; inside the guard
    [self.stack[index]] does not raise. *)
Definition get_item (self : ConversationStack) (index : Z) : option ConversationNode :=
  if (0 <=? index) && (index <? Deque.len (stack self)) then
    Deque.items (stack self) !! Z.to_nat index
  else None.

(** ** MessageBuilder *)

(** One entry of the message array, [{"role": role, "content": content}]. *)
Record message : Type := mkMsg { role : pystr; content : pystr }.

Record MessageBuilder : Type := mkBuilder { msg : list message }.

Definition MessageBuilder__init__ : MessageBuilder := mkBuilder [].

(** [add_line]: "Add a message line with role and content", only for
    content that is not empty. *)
Definition add_line (self : MessageBuilder) (role : pystr) (content : option pystr)
  : MessageBuilder :=
  match content with
  | Some s =>
      if truthy s && truthy (strip s)
      then mkBuilder (msg self ++ [mkMsg role (strip s)])
      else self
  | None => self
  end.

Definition add_system (self : MessageBuilder) (content : option pystr) : MessageBuilder :=
  add_line self (py "system") content.

Definition add_user (self : MessageBuilder) (content : option pystr) : MessageBuilder :=
  add_line self (py "user") content.

Definition add_assistant (self : MessageBuilder) (content : option pystr) : MessageBuilder :=
  add_line self (py "assistant") content.

Definition clear (self : MessageBuilder) : MessageBuilder := mkBuilder [].

(** The body of the loop of [build_from_conversation]. *)
Definition build_node (self : MessageBuilder) (node : ConversationNode) : MessageBuilder :=
  let self1 :=
    if nonblank (system_prompt node) then add_system self (system_prompt node) else self in
  let self2 :=
    if nonblank (user_prompt node) then add_user self1 (user_prompt node) else self1 in
  if nonblank (ai_response node) then add_assistant self2 (ai_response node) else self2.

(** [build_from_conversation]: "Build messages from conversation nodes". *)
Definition build_from_conversation (self : MessageBuilder)
    (conversation_nodes : list ConversationNode) : MessageBuilder :=
  foldl build_node (clear self) conversation_nodes.

Definition get_message (self : MessageBuilder) : list message := msg self.

(** [build_from_branch]: an exception of [get_branch_conversation] leaves
    the builder as it was. *)
Definition build_from_branch (self : MessageBuilder) (stack : ConversationStack)
    (branch_id limit : Z) : result MessageBuilder :=
  branch_nodes ← get_branch_conversation stack branch_id limit ;
  Ok (build_from_conversation self branch_nodes).

(** ** Runs of the store *)

(** A loop of [push] calls, as in the driver of the application: each call
    works on the store the previous one left. *)
Definition push_all (self : ConversationStack) (l : list push_args) : ConversationStack :=
  foldl (λ s a, (push s a).1) self l.

(** The bound of the deque is respected. *)
Definition wf (self : ConversationStack) : Prop :=
  0 ≤ Deque.maxlen (stack self) ∧
  Deque.len (stack self) ≤ Deque.maxlen (stack self).

(** The capacity of the store. *)
Definition capacity (self : ConversationStack) : Z := Deque.maxlen (stack self).

(** The last [n] elements of a list, in their order. *)
Definition last_n {A} (n : nat) (l : list A) : list A := drop (length l - n) l.

(** ** Sample data *)

Module Samples.

(** A turn with a user prompt and a response, for branch [b] ([None] is
    the current branch). *)
Definition turn (u r : string) (b : option Z) : push_args :=
  mkArgs (Some []) (Some (py u)) (Some (py r)) b (py "2025-01-01 12:00:00").

(** An empty store of capacity [n], as [ConversationStack(n)] builds it
    for every [n] that it accepts. *)
Definition store (n : Z) : ConversationStack := mkStack (Deque.mk [] n) ∅ 0.

End Samples.

(** ** Statements of the specification *)

(** Id stability: the index returned for the turn pushed with [a] denotes
    that turn or nothing after the later pushes [l]. *)
Definition id_stable (self : ConversationStack) (a : push_args) (l : list push_args)
  : Prop :=
  let s1 := (push self a).1 in
  let x := (push self a).2 in
  get_item (push_all s1 l) x = Some (push_node self a) ∨
  get_item (push_all s1 l) x = None.

(** Two consecutive pushes return strictly increasing ids. *)
Definition ids_increase (self : ConversationStack) (a b : push_args) : Prop :=
  (push self a).2 < (push (push self a).1 b).2.

(** [recent(n)] is the last [min(n, live count)] resident turns. *)
Definition recent_is_last_min (self : ConversationStack) (n : Z) : Prop :=
  get_recent_conversation self n
  = last_n (Z.to_nat (n `min` Deque.len (stack self))) (get_stack self).

(** A non-positive capacity is refused. *)
Definition refuses_capacity (max_size : Z) : Prop :=
  ∃ e, ConversationStack__init__ max_size = Raise e.

(** The parent recorded by a successful fork is strictly below every index
    of the new branch. *)
Definition fork_parent_earlier (self : ConversationStack) (from_index : Z)
    (new_system_prompt new_user_prompt : option pystr) (now : pystr) : Prop :=
  match create_branch self from_index new_system_prompt new_user_prompt now with
  | (s', Ok (Some index)) =>
      ∀ p i, get_item s' index ≫= parent_index = Some p →
             i ∈ default [] (branches s' !! current_branch s') →
             p < i
  | _ => True
  end.

(** [create_branch] reports "not found" exactly for an index that denotes
    no resident node, and does not raise. *)
Definition fork_not_found_iff (self : ConversationStack) (from_index : Z)
    (new_system_prompt new_user_prompt : option pystr) (now : pystr) : Prop :=
  let r := (create_branch self from_index new_system_prompt new_user_prompt now).2 in
  (r = Ok None ↔ get_item self from_index = None) ∧ (∀ e, r ≠ Raise e).

(** Every node returned for a branch belongs to that branch. *)
Definition branch_turns_of_branch (self : ConversationStack) (branch limit : Z) : Prop :=
  ∃ nodes, get_branch_conversation self branch limit = Ok nodes ∧
           ∀ node, node ∈ nodes → branch_id node = branch.

(** The indices recorded for [b] denote, in order, the resident nodes of
    branch [b]. *)
Definition branch_ids_resolve (self : ConversationStack) (b : Z) : Prop :=
  Forall2 (λ i node, 0 ≤ i ∧ get_stack self !! Z.to_nat i = Some node)
    (default [] (branches self !! b))
    (filter (λ node, branch_id node = b) (get_stack self)).

(** ** Message assembly as the specification words it *)

(** A field is blank when it has only whitespace (or nothing at all). *)
Definition blank (s : pystr) : bool := forallb isspace s.

(** The messages of one field: none for an absent or blank field. *)
Definition emit (role : pystr) (field : option pystr) : list message :=
  match field with
  | Some s => if blank s then [] else [mkMsg role (strip s)]
  | None => []
  end.

(** The messages of one turn: system, then user, then assistant. *)
Definition assemble_turn (turn : ConversationNode) : list message :=
  emit (py "system") (system_prompt turn) ++
  emit (py "user") (user_prompt turn) ++
  emit (py "assistant") (ai_response turn).

(** The messages of a sequence of turns, turn by turn in input order. *)
Definition assemble (turns : list ConversationNode) : list message :=
  turns ≫= assemble_turn.

(** The fields of a turn with the role each is emitted under. *)
Definition fields (turn : ConversationNode) : list (pystr * option pystr) :=
  [(py "system", system_prompt turn); (py "user", user_prompt turn);
   (py "assistant", ai_response turn)].

(** [t] is [s] without its leading and trailing whitespace. *)
Definition stripped_of (s t : pystr) : Prop :=
  ∃ pre post,
    s = pre ++ t ++ post ∧
    forallb isspace pre = true ∧
    forallb isspace post = true ∧
    (∀ c, head t = Some c → isspace c = false) ∧
    (∀ c, last t = Some c → isspace c = false).

(** ** Lineage *)

(** Modelled from the spec: the lineage walk of a branch, which the source
    has no function for.  One step takes the first index recorded for the
    branch, resolves it, follows the node's [parent_index], resolves that
    and yields the branch of the parent node; the step yields nothing as
    soon as one of these is missing. *)
Definition lineage_parent (self : ConversationStack) (branch : Z) : option Z :=
  ids ← branches self !! branch ;
  first ← head ids ;
  node ← get_item self first ;
  p ← parent_index node ;
  parent_node ← get_item self p ;
  Some (branch_id parent_node).

(** Modelled from the spec: the walk repeats the step until it yields
    nothing and returns the branches visited; [None] when [fuel] steps did
    not reach the end. *)
Fixpoint lineage (fuel : nat) (self : ConversationStack) (branch : Z)
  : option (list Z) :=
  match fuel with
  | O => None
  | S fuel' =>
      match lineage_parent self branch with
      | None => Some [branch]
      | Some branch' => (branch ::.) <$> lineage fuel' self branch'
      end
  end.

(** ** Calls on the store *)

(** One call of a method that changes the store, with its arguments. *)
Inductive call : Type :=
| Push (a : push_args)
| CreateBranch (from_index : Z) (new_system_prompt new_user_prompt : option pystr)
    (now : pystr).

(** The store after one call, whatever the call returned or raised: the
    application goes on with the same [stacky]. *)
Definition step (self : ConversationStack) (c : call) : ConversationStack :=
  match c with
  | Push a => (push self a).1
  | CreateBranch from_index new_system_prompt new_user_prompt now =>
      (create_branch self from_index new_system_prompt new_user_prompt now).1
  end.

(** The store after a sequence of calls. *)
Definition run (self : ConversationStack) (cs : list call) : ConversationStack :=
  foldl step self cs.

(** Every index recorded for a branch is a position of the deque. *)
Definition indices_in_range (self : ConversationStack) : Prop :=
  ∀ b ids i, branches self !! b = Some ids → i ∈ ids →
             0 ≤ i < Deque.len (stack self).

(** Every branch that has an entry has at least one index. *)
Definition branches_nonempty (self : ConversationStack) : Prop :=
  ∀ b ids, branches self !! b = Some ids → ids ≠ [].

(** The branch of every resident node has an entry. *)
Definition branches_known (self : ConversationStack) : Prop :=
  ∀ node, node ∈ get_stack self → is_Some (branches self !! branch_id node).

(** ** The last message of a role *)

(** The loop [for msg in reversed(self.msg)] of [get_last_user_message] and
    [get_last_assistant_message], on the reversed list: the content of the
    first message with the role, the empty string when there is none. *)
Fixpoint first_content (r : pystr) (reversed : list message) : pystr :=
  match reversed with
  | [] => []
  | m :: rest => if bool_decide (role m = r) then content m else first_content r rest
  end.

(** [get_last_user_message]: "Get the last user message content". *)
Definition get_last_user_message (self : MessageBuilder) : pystr :=
  first_content (py "user") (rev (msg self)).

(** [get_last_assistant_message]: "Get the last assistant message content". *)
Definition get_last_assistant_message (self : MessageBuilder) : pystr :=
  first_content (py "assistant") (rev (msg self)).

(** ** generate_filename *)

(** The code point of ".". *)
Definition dot : N := 46.

(** [c in s] for a one-character [c]. *)
Definition contains (c : N) (s : pystr) : bool := existsb (N.eqb c) s.

(** The parts of [s] before and after the last [sep], if [sep] occurs. *)
Fixpoint split_last (sep : N) (s : pystr) : option (pystr * pystr) :=
  match s with
  | [] => None
  | c :: s' =>
      match split_last sep s' with
      | Some (before, after) => Some (c :: before, after)
      | None => if (c =? sep)%N then Some ([], s') else None
      end
  end.

(** [s.rsplit(sep, 1)] for a one-character [sep]. *)
Definition rsplit1 (sep : N) (s : pystr) : list pystr :=
  match split_last sep s with
  | Some (before, after) => [before; after]
  | None => [s]
  end.

(** [l[i]] for an index that is not negative. *)
Definition list_getitem {A} (l : list A) (i : nat) : result A :=
  match l !! i with
  | Some x => Ok x
  | None => Raise IndexError
  end.

(** [sep.join(parts)] *)
Fixpoint join (sep : pystr) (parts : list pystr) : pystr :=
  match parts with
  | [] => []
  | [part] => part
  | part :: rest => part ++ sep ++ join sep rest
  end.

(** The decimal digits of [n], most significant first; [fuel] bounds the
    number of digits. *)
Fixpoint digits_fuel (fuel : nat) (n : N) : pystr :=
  match fuel with
  | O => []
  | S fuel' =>
      if (n <? 10)%N then [(48 + n)%N]
      else digits_fuel fuel' (n / 10)%N ++ [(48 + n mod 10)%N]
  end.

(** [str(n)] for [n >= 0]: a number has no more decimal digits than bits. *)
Definition digits (n : N) : pystr := digits_fuel (S (N.to_nat (N.log2 n))) n.

(** [s.zfill(width)] for a string of digits. *)
Definition zero_fill (width : nat) (s : pystr) : pystr :=
  replicate (width - length s) 48%N ++ s.

(** [f"{n:03d}"]: the sign counts for the width. *)
Definition format_03d (n : Z) : pystr :=
  if n <? 0 then 45%N :: zero_fill 2 (digits (Z.to_N (- n)))
  else zero_fill 3 (digits (Z.to_N n)).

(** [generate_filename]: "Generate filename with iteration and/or timestamp,
    preserving custom extensions".  The global [CUSTOM_FILE_COUNTER] is an
    argument and is returned with the name; [stamp] is what
    [datetime.now().strftime("%Y-%m-%d_%H-%M-%S")] gives. *)
Definition generate_filename (CUSTOM_FILE_COUNTER : Z) (base_name : pystr)
    (use_iteration use_timestamp : bool) (stamp : pystr) : result (Z * pystr) :=
  '(base, extension) ←
    (if contains dot base_name then
       let name_parts := rsplit1 dot base_name in
       base ← list_getitem name_parts 0 ;
       extension ← list_getitem name_parts 1 ;
       Ok (base, extension)
     else Ok (base_name, py "txt")) ;
  let parts := [base] in
  let counter := if use_iteration then CUSTOM_FILE_COUNTER + 1 else CUSTOM_FILE_COUNTER in
  let parts := if use_iteration then parts ++ [format_03d counter] else parts in
  let parts := if use_timestamp then parts ++ [stamp] else parts in
  Ok (counter, join (py "_") parts ++ py "." ++ extension).

(** The content that a field gives to its message: the field stripped, if
    the field is present and not blank. *)
Definition field_content (field : option pystr) : option pystr :=
  match field with
  | Some s => if blank s then None else Some (strip s)
  | None => None
  end.

(** The number that a string of decimal digits denotes. *)
Definition to_N (s : pystr) : N := foldl (λ acc c, acc * 10 + (c - 48))%N 0%N s.


(** The node that a call appends to the deque, if it appends one: the node
    of a push, the node of a fork that succeeds. *)
Definition step_node (self : ConversationStack) (c : call) : option ConversationNode :=
  match c with
  | Push a => Some (push_node self a)
  | CreateBranch from_index new_system_prompt new_user_prompt now =>
      let r := create_branch self from_index new_system_prompt new_user_prompt now in
      match r.2 with
      | Ok (Some index) => get_item r.1 index
      | _ => None
      end
  end.

(** The nodes that a sequence of calls appends, in the order of the calls. *)
Fixpoint appended (self : ConversationStack) (cs : list call) : list ConversationNode :=
  match cs with
  | [] => []
  | c :: cs' => option_list (step_node self c) ++ appended (step self c) cs'
  end.

(** ** Calls on the builder *)

(** One call of a method that changes the builder, with its arguments. *)
Inductive builder_call : Type :=
| AddLine (role : pystr) (content : option pystr)
| AddSystem (content : option pystr)
| AddUser (content : option pystr)
| AddAssistant (content : option pystr)
| Clear
| BuildFromConversation (conversation_nodes : list ConversationNode).

Definition builder_step (self : MessageBuilder) (c : builder_call) : MessageBuilder :=
  match c with
  | AddLine role content => add_line self role content
  | AddSystem content => add_system self content
  | AddUser content => add_user self content
  | AddAssistant content => add_assistant self content
  | Clear => clear self
  | BuildFromConversation conversation_nodes =>
      build_from_conversation self conversation_nodes
  end.

(** The builder after a sequence of calls. *)
Definition builder_run (self : MessageBuilder) (cs : list builder_call) : MessageBuilder :=
  foldl builder_step self cs.

(** The content of a message is not empty and has no whitespace at its
    ends. *)
Definition clean (m : message) : Prop :=
  content m ≠ [] ∧ strip (content m) = content m.

(** * Properties *)

(** ** Lists *)

Section list_facts.
Context {A : Type}.
Implicit Types l k : list A.

Lemma drop_1_tail l : drop 1 l = tail l.
Proof. by destruct l. Qed.

Lemma last_n_length n l : length (last_n n l) = (length l `min` n)%nat.
Proof. unfold last_n. rewrite length_drop. lia. Qed.

Lemma last_n_all n l : (length l ≤ n)%nat → last_n n l = l.
Proof. intros H. unfold last_n. by replace (length l - n)%nat with 0%nat by lia. Qed.

Lemma last_n_app_last_n n l k : last_n n (last_n n l ++ k) = last_n n (l ++ k).
Proof.
  destruct (decide (length l ≤ n)%nat) as [Hle|Hgt].
  - by rewrite (last_n_all n l).
  - unfold last_n at 1 3. rewrite !length_app, last_n_length.
    replace (length l `min` n + length k - n)%nat with (length k) by lia.
    replace (length l + length k - n)%nat
      with ((length l - n) + length k)%nat by lia.
    rewrite <- drop_drop. unfold last_n.
    by rewrite (drop_app_le l k) by lia.
Qed.

Lemma last_n_lookup n l (i : nat) :
  last_n n l !! i = l !! (length l - n + i)%nat.
Proof. unfold last_n. by rewrite lookup_drop. Qed.

Lemma slice_from_neg l (n : Z) :
  1 ≤ n → slice_from l (- n) = last_n (Z.to_nat n) l.
Proof.
  intros Hn. unfold slice_from, last_n.
  destruct (Z.ltb_spec (- n) 0); [|lia].
  f_equal. lia.
Qed.

Lemma slice_from_0 l : slice_from l 0 = l.
Proof.
  unfold slice_from. simpl.
  by replace (Z.to_nat (0 `min` Z.of_nat (length l))) with 0%nat by lia.
Qed.

End list_facts.

(** ** The deque keeps the most recent items *)

Lemma append_maxlen {A} (d : Deque.deque A) x :
  Deque.maxlen (Deque.append d x) = Deque.maxlen d.
Proof. done. Qed.

Lemma append_items {A} (d : Deque.deque A) x :
  Deque.len d ≤ Deque.maxlen d →
  Deque.items (Deque.append d x)
  = last_n (Z.to_nat (Deque.maxlen d)) (Deque.items d ++ [x]).
Proof.
  unfold Deque.len, Deque.append, last_n. intros Hle. simpl.
  rewrite length_app. simpl.
  destruct (Z.ltb_spec (Deque.maxlen d) (Z.of_nat (length (Deque.items d) + 1))).
  - replace (length (Deque.items d) + 1 - Z.to_nat (Deque.maxlen d))%nat
      with 1%nat by lia.
    by rewrite drop_1_tail.
  - by replace (length (Deque.items d) + 1 - Z.to_nat (Deque.maxlen d))%nat
      with 0%nat by lia.
Qed.

Lemma append_len {A} (d : Deque.deque A) x :
  0 ≤ Deque.maxlen d →
  Deque.len d ≤ Deque.maxlen d →
  Deque.len (Deque.append d x) = (Deque.len d + 1) `min` Deque.maxlen d.
Proof.
  intros H0 Hle. unfold Deque.len at 1. rewrite append_items by done.
  rewrite last_n_length, length_app. unfold Deque.len in *. simpl. lia.
Qed.

(** On a full deque the leftmost item leaves and the new one enters on the
    right. *)
Lemma append_full {A} (d : Deque.deque A) x :
  1 ≤ Deque.maxlen d →
  Deque.len d = Deque.maxlen d →
  Deque.items (Deque.append d x) = tail (Deque.items d) ++ [x].
Proof.
  unfold Deque.len, Deque.append. intros H1 Hfull. simpl.
  rewrite length_app. simpl.
  destruct (Z.ltb_spec (Deque.maxlen d) (Z.of_nat (length (Deque.items d) + 1)));
    [|lia].
  destruct (Deque.items d); [simpl in *; lia | done].
Qed.

(** ** Invariants of [push] *)

Lemma push_stack self a :
  stack (push self a).1 = Deque.append (stack self) (push_node self a).
Proof. done. Qed.

Lemma push_index self a :
  (push self a).2 = Deque.len (stack (push self a).1) - 1.
Proof. done. Qed.

Lemma push_current_branch self a :
  current_branch (push self a).1 = current_branch self.
Proof. done. Qed.

Lemma push_capacity self a : capacity (push self a).1 = capacity self.
Proof. done. Qed.

Lemma push_wf self a : wf self → wf (push self a).1.
Proof.
  intros [H0 Hle]. split; rewrite push_stack, ?append_maxlen; [done|].
  rewrite append_len by done. lia.
Qed.

Lemma push_node_current_branch self self' a :
  current_branch self = current_branch self' → push_node self a = push_node self' a.
Proof. unfold push_node. by intros ->. Qed.

Lemma push_all_cons self a l :
  push_all self (a :: l) = push_all (push self a).1 l.
Proof. done. Qed.

Lemma push_all_wf self l : wf self → wf (push_all self l).
Proof.
  revert self. induction l as [|a l IH]; intros self Hwf; [done|].
  rewrite push_all_cons. apply IH. by apply push_wf.
Qed.

Lemma push_all_capacity self l : capacity (push_all self l) = capacity self.
Proof.
  revert self. induction l as [|a l IH]; intros self; [done|].
  by rewrite push_all_cons, IH, push_capacity.
Qed.

(** After a run of pushes the store holds the last [capacity] nodes of
    everything that was ever in it, in creation order. *)
Lemma get_stack_push_all self l :
  wf self →
  get_stack (push_all self l)
  = last_n (Z.to_nat (capacity self)) (get_stack self ++ (push_node self <$> l)).
Proof.
  revert self. induction l as [|a l IH]; intros self Hwf.
  - simpl. rewrite app_nil_r. symmetry. apply last_n_all.
    destruct Hwf as [? ?]. unfold get_stack, Deque.to_list, capacity, Deque.len in *. lia.
  - rewrite push_all_cons, IH by by apply push_wf.
    rewrite push_capacity.
    unfold get_stack, Deque.to_list at 1. rewrite push_stack.
    rewrite append_items by apply Hwf.
    fold (capacity self). rewrite last_n_app_last_n.
    rewrite <- app_assoc.
    replace (push_node (push self a).1 <$> l) with (push_node self <$> l); [done|].
    apply list_fmap_ext. intros _ b _.
    apply push_node_current_branch. by rewrite push_current_branch.
Qed.

Lemma init_ok max_size :
  0 ≤ max_size < Deque.ssize_bound →
  ConversationStack__init__ max_size = Ok (mkStack (Deque.mk [] max_size) ∅ 0).
Proof.
  intros H. unfold ConversationStack__init__, Deque.new.
  destruct (Z.ltb_spec max_size (- Deque.ssize_bound));
    [unfold Deque.ssize_bound in *; lia|].
  destruct (Z.leb_spec Deque.ssize_bound max_size); [lia|].
  by destruct (Z.ltb_spec max_size 0); [lia|].
Qed.

(** A store that [ConversationStack(max_size)] returns is empty, and
    [max_size] is neither negative nor too large for a [Py_ssize_t]. *)
Lemma init_Ok_inv max_size self :
  ConversationStack__init__ max_size = Ok self →
  self = mkStack (Deque.mk [] max_size) ∅ 0 ∧ 0 ≤ max_size < Deque.ssize_bound.
Proof.
  unfold ConversationStack__init__, Deque.new.
  destruct (Z.ltb_spec max_size (- Deque.ssize_bound)); [done|].
  destruct (Z.leb_spec Deque.ssize_bound max_size); [done|].
  destruct (Z.ltb_spec max_size 0); [done|].
  intros [= <-]. split; [done|lia].
Qed.

Lemma init_wf max_size self :
  ConversationStack__init__ max_size = Ok self →
  wf self ∧ capacity self = max_size ∧ get_stack self = [] ∧ current_branch self = 0.
Proof.
  intros [-> [H0 _]]%init_Ok_inv.
  unfold wf, capacity, Deque.len. simpl. repeat split; lia.
Qed.

(** ** get_item after later pushes *)

Lemma push_all_current_branch self l :
  current_branch (push_all self l) = current_branch self.
Proof.
  revert self. induction l as [|a l IH]; intros self; [done|].
  by rewrite push_all_cons, IH, push_current_branch.
Qed.

Lemma push_all_snoc self l a :
  push_all self (l ++ [a]) = (push (push_all self l) a).1.
Proof. unfold push_all. by rewrite foldl_app. Qed.

Lemma get_stack_len self : Z.of_nat (length (get_stack self)) = Deque.len (stack self).
Proof. done. Qed.

Lemma get_item_lookup self (i : Z) :
  0 ≤ i → get_item self i = get_stack self !! Z.to_nat i.
Proof.
  intros Hi. unfold get_item.
  destruct (Z.leb_spec 0 i); [|lia].
  destruct (Z.ltb_spec i (Deque.len (stack self))) as [Hlt|Hge]; [done|].
  simpl. symmetry. apply lookup_ge_None.
  unfold get_stack, Deque.to_list, Deque.len in *. lia.
Qed.

Lemma get_item_negative self (i : Z) : i < 0 → get_item self i = None.
Proof. intros Hi. unfold get_item. by destruct (Z.leb_spec 0 i); [lia|]. Qed.

(** At the moment [push] returns, the index it returns is the position of
    the new node. *)
Lemma push_get_item self a :
  wf self → 0 ≤ (push self a).2 →
  get_item (push self a).1 (push self a).2 = Some (push_node self a).
Proof.
  intros [H0 Hle] Hx. rewrite get_item_lookup by done.
  rewrite push_index in *. unfold get_stack, Deque.to_list.
  rewrite push_stack in *. rewrite append_len in * by done.
  rewrite append_items by done. rewrite last_n_lookup, length_app. simpl.
  unfold Deque.len in *.
  replace (length (Deque.items (stack self)) + 1
           - Z.to_nat (Deque.maxlen (stack self))
           + Z.to_nat ((Z.of_nat (length (Deque.items (stack self))) + 1)
                         `min` Deque.maxlen (stack self) - 1))%nat
    with (length (Deque.items (stack self)) + 0)%nat by lia.
  by rewrite lookup_app_r, Nat.add_0_r, Nat.sub_diag by lia.
Qed.

Lemma push_all_len self l :
  wf self →
  Deque.len (stack (push_all self l))
  = (Deque.len (stack self) + Z.of_nat (length l)) `min` capacity self.
Proof.
  intros Hwf. rewrite <- !get_stack_len, get_stack_push_all by done.
  rewrite last_n_length, length_app, length_fmap.
  destruct Hwf as [H0 _]. unfold capacity. lia.
Qed.

(** C1 (amended). Once [push] has returned index [x] for a turn, and [e] of
    the later pushes have evicted a node, the turn is the one that
    [get_item] returns for [x - e], as long as [x - e] is not negative.
    With no eviction ([e = 0]) the index still denotes the turn. *)
Theorem get_item_after_pushes (self : ConversationStack) (a : push_args)
    (l : list push_args) :
  wf self →
  let s1 := (push self a).1 in
  let x := (push self a).2 in
  let s2 := push_all s1 l in
  let e := Deque.len (stack s1) + Z.of_nat (length l) - Deque.len (stack s2) in
  0 ≤ x - e →
  get_item s2 (x - e) = Some (push_node self a).
Proof.
  intros Hwf s1 x s2 e Hx.
  assert (wf s1) as Hwf1 by by apply push_wf.
  assert (0 ≤ e) as He.
  { unfold e, s2. rewrite push_all_len by done. lia. }
  assert (0 ≤ x) as Hx0 by lia.
  pose proof (push_get_item self a Hwf Hx0) as Hnew.
  fold s1 x in Hnew. rewrite get_item_lookup in Hnew by done.
  rewrite get_item_lookup by done.
  unfold s2. rewrite get_stack_push_all by done.
  rewrite last_n_lookup, length_app, length_fmap.
  assert (x < Deque.len (stack s1)) as Hlt.
  { unfold x. rewrite push_index. fold s1. lia. }
  assert (e = (Deque.len (stack s1) + Z.of_nat (length l) - capacity s1) `max` 0)
    as Ee.
  { unfold e, s2. rewrite push_all_len by done. destruct Hwf1. unfold capacity. lia. }
  rewrite <- get_stack_len in *.
  replace (length (get_stack s1) + length l - Z.to_nat (capacity s1)
           + Z.to_nat (x - e))%nat with (Z.to_nat x) by lia.
  rewrite lookup_app_l by lia. done.
Qed.

Lemma store_init n :
  0 ≤ n < Deque.ssize_bound → ConversationStack__init__ n = Ok (Samples.store n).
Proof. apply init_ok. Qed.

Lemma store_wf n : 0 ≤ n → wf (Samples.store n).
Proof. intros H. unfold wf, Deque.len. simpl. lia. Qed.

(** A store of capacity 3 that is full after the third push: the turn
    pushed third is found one position lower after one more push. *)
Lemma get_item_after_pushes_witness :
  get_item
    (push_all (push_all (Samples.store 3)
                 [Samples.turn "A" "a" None; Samples.turn "B" "b" None;
                  Samples.turn "C" "c" None])
       [Samples.turn "D" "d" None]) 1
  = Some (push_node (Samples.store 3) (Samples.turn "C" "c" None)).
Proof.
  apply (get_item_after_pushes
           (push_all (Samples.store 3)
              [Samples.turn "A" "a" None; Samples.turn "B" "b" None])
           (Samples.turn "C" "c" None) [Samples.turn "D" "d" None]).
  - split; by vm_compute.
  - by vm_compute.
Defined.

(** C1 (as stated) fails: in a store of capacity 1 the index 0 returned for
    turn A denotes turn B after B is pushed. *)
Lemma id_stability_counterexample :
  (push (Samples.store 1) (Samples.turn "A" "a" None)).2 = 0 ∧
  get_item
    (push_all (push (Samples.store 1) (Samples.turn "A" "a" None)).1
       [Samples.turn "B" "b" None]) 0
  = Some (push_node (Samples.store 1) (Samples.turn "B" "b" None)) ∧
  ¬ id_stable (Samples.store 1) (Samples.turn "A" "a" None)
      [Samples.turn "B" "b" None].
Proof.
  split; [done|]. split; [done|].
  unfold id_stable. intros [H|H]; vm_compute in H; discriminate.
Qed.

(** ** The index returned by push *)

(** The index that [push] returns in terms of the store before the call. *)
Lemma push_index_len self a :
  wf self →
  (push self a).2 = (Deque.len (stack self) + 1) `min` capacity self - 1.
Proof.
  intros [H0 Hle]. rewrite push_index, push_stack. by rewrite append_len.
Qed.

(** C3 (amended). [push] returns the position of the new node: of two
    consecutive pushes the second returns the successor of the first index
    when the store was not full before it, and the same index (the last
    position) when the store was full. *)
Theorem push_index_consecutive (self : ConversationStack) (a b : push_args) :
  wf self →
  let s1 := (push self a).1 in
  let x1 := (push self a).2 in
  let x2 := (push s1 b).2 in
  x2 = if Deque.len (stack s1) <? capacity s1 then x1 + 1 else x1.
Proof.
  intros Hwf s1 x1 x2.
  assert (wf s1) as Hwf1 by by apply push_wf.
  unfold x2. rewrite push_index_len by done.
  unfold x1. rewrite push_index. fold s1.
  destruct Hwf1 as [H0 Hle]. unfold capacity.
  destruct (Z.ltb_spec (Deque.len (stack s1)) (Deque.maxlen (stack s1))); lia.
Qed.

Lemma push_index_consecutive_witness :
  (push (push (Samples.store 2) (Samples.turn "A" "a" None)).1
     (Samples.turn "B" "b" None)).2
  = (push (Samples.store 2) (Samples.turn "A" "a" None)).2 + 1.
Proof.
  apply (push_index_consecutive (Samples.store 2) (Samples.turn "A" "a" None)
           (Samples.turn "B" "b" None)).
  split; by vm_compute.
Defined.

(** X9. The k-th push on a fresh store (counting from 0) returns
    [min k (capacity - 1)]. *)
Lemma push_index_fresh (n : Z) (l : list push_args) (a : push_args) :
  0 ≤ n →
  (push (push_all (Samples.store n) l) a).2 = Z.of_nat (length l) `min` (n - 1).
Proof.
  intros Hn. rewrite push_index_len by by apply push_all_wf, store_wf.
  rewrite push_all_len by by apply store_wf.
  rewrite push_all_capacity. unfold capacity, Deque.len. simpl. lia.
Qed.

(** C3 (as stated) fails: in a store of capacity 1 the second push returns
    0 again. *)
Lemma ids_increase_counterexample :
  (push (Samples.store 1) (Samples.turn "A" "a" None)).2 = 0 ∧
  (push (push (Samples.store 1) (Samples.turn "A" "a" None)).1
     (Samples.turn "B" "b" None)).2 = 0 ∧
  ¬ ids_increase (Samples.store 1) (Samples.turn "A" "a" None)
      (Samples.turn "B" "b" None).
Proof.
  split; [done|]. split; [done|].
  unfold ids_increase. vm_compute. discriminate.
Qed.

(** ** Capacity *)

(** C4. A store of capacity [N >= 1] that received [k > N] pushes, for any
    branches, holds exactly the nodes of the last [N] pushes in creation
    order; [get_recent_conversation] with limit [N] shows the same nodes;
    and every push into the full store drops the single oldest node. *)
Theorem capacity_invariant (N : Z) (self : ConversationStack) (l : list push_args) :
  1 ≤ N →
  ConversationStack__init__ N = Ok self →
  N < Z.of_nat (length l) →
  get_stack (push_all self l) = last_n (Z.to_nat N) (push_node self <$> l) ∧
  Z.of_nat (length (get_stack (push_all self l))) = N ∧
  get_recent_conversation (push_all self l) N = get_stack (push_all self l) ∧
  ∀ l1 a, N ≤ Z.of_nat (length l1) →
    get_stack (push_all self (l1 ++ [a]))
    = tail (get_stack (push_all self l1)) ++ [push_node self a].
Proof.
  intros HN Hinit Hk.
  destruct (init_wf _ _ Hinit) as (Hwf & Hcap & Hnil & Hcb).
  assert (get_stack (push_all self l) = last_n (Z.to_nat N) (push_node self <$> l))
    as Hst.
  { rewrite get_stack_push_all by done. by rewrite Hcap, Hnil. }
  assert (Z.of_nat (length (get_stack (push_all self l))) = N) as Hlen.
  { rewrite Hst, last_n_length, length_fmap. lia. }
  repeat split; [done|done| |].
  - unfold get_recent_conversation. rewrite slice_from_neg by done.
    fold (get_stack (push_all self l)). apply last_n_all. lia.
  - intros l1 a Hl1. rewrite push_all_snoc.
    unfold get_stack, Deque.to_list. rewrite push_stack.
    assert (wf (push_all self l1)) as Hwf1 by by apply push_all_wf.
    assert (Deque.len (stack (push_all self l1)) = N) as Hfull.
    { rewrite push_all_len by done. rewrite Hcap, <- get_stack_len, Hnil. simpl. lia. }
    rewrite append_full.
    + do 2 f_equal. apply push_node_current_branch, push_all_current_branch.
    + fold (capacity (push_all self l1)). rewrite push_all_capacity. lia.
    + fold (capacity (push_all self l1)). rewrite push_all_capacity. lia.
Qed.

(** The store of [test_stack_limits]: capacity 3 and five pushes. *)
Lemma capacity_invariant_witness :
  get_stack
    (push_all (Samples.store 3)
       [Samples.turn "User0" "Response0" None; Samples.turn "User1" "Response1" None;
        Samples.turn "User2" "Response2" None; Samples.turn "User3" "Response3" None;
        Samples.turn "User4" "Response4" None])
  = push_node (Samples.store 3) <$>
      [Samples.turn "User2" "Response2" None; Samples.turn "User3" "Response3" None;
       Samples.turn "User4" "Response4" None].
Proof.
  refine (proj1 (capacity_invariant 3 (Samples.store 3) _ _ _ _));
    [lia | reflexivity | simpl; lia].
Defined.

(** ** Recent turns *)

(** For every limit [n >= 1], [get_recent_conversation] returns the last
    [min n (live count)] resident nodes, oldest first. *)
Theorem recent_last_min (self : ConversationStack) (n : Z) :
  1 ≤ n →
  get_recent_conversation self n
  = last_n (Z.to_nat (n `min` Deque.len (stack self))) (get_stack self) ∧
  Z.of_nat (length (get_recent_conversation self n)) = n `min` Deque.len (stack self).
Proof.
  intros Hn.
  assert (get_recent_conversation self n
          = last_n (Z.to_nat (n `min` Deque.len (stack self))) (get_stack self))
    as Heq.
  { unfold get_recent_conversation. rewrite slice_from_neg by done.
    fold (get_stack self). unfold last_n. f_equal.
    rewrite <- get_stack_len. lia. }
  split; [done|].
  rewrite Heq, last_n_length, <- get_stack_len. lia.
Qed.

Lemma recent_last_min_witness :
  get_recent_conversation
    (push_all (Samples.store 10)
       [Samples.turn "User1" "Response1" None; Samples.turn "User2" "Response2" None]) 1
  = [push_node (Samples.store 10) (Samples.turn "User2" "Response2" None)].
Proof.
  refine (proj1 (recent_last_min _ 1 _)). lia.
Defined.

(** C8: the code at limit 0.  The slice [[-0:]] is [[0:]], the whole list:
    with two resident nodes [get_recent_conversation(0)] returns both,
    where [min(0, 2) = 0] nodes are expected. *)
Lemma recent_limit_zero :
  get_recent_conversation
    (push_all (Samples.store 10)
       [Samples.turn "User1" "Response1" None; Samples.turn "User2" "Response2" None]) 0
  = push_node (Samples.store 10) <$>
      [Samples.turn "User1" "Response1" None; Samples.turn "User2" "Response2" None] ∧
  ¬ recent_is_last_min
      (push_all (Samples.store 10)
         [Samples.turn "User1" "Response1" None; Samples.turn "User2" "Response2" None])
      0.
Proof.
  split; [done|]. unfold recent_is_last_min. vm_compute. discriminate.
Qed.

(** A negative limit drops that many of the oldest nodes instead. *)
Lemma recent_negative_limit :
  get_recent_conversation
    (push_all (Samples.store 10)
       [Samples.turn "User1" "Response1" None; Samples.turn "User2" "Response2" None])
    (-1)
  = [push_node (Samples.store 10) (Samples.turn "User2" "Response2" None)].
Proof. reflexivity. Qed.

(** ** Construction *)

(** C9 (amended). [ConversationStack(max_size)] raises exactly when
    [max_size] is negative or does not fit a [Py_ssize_t]: the
    [ValueError] of [deque] for [- 2 ** 63 <= max_size < 0], the
    [OverflowError] of the conversion for [max_size < - 2 ** 63] and for
    [max_size >= 2 ** 63].  For every other [max_size], zero included, it
    returns an empty store of that capacity. *)
Theorem init_outcome (max_size : Z) :
  (ConversationStack__init__ max_size = Raise ValueError
   ↔ - Deque.ssize_bound ≤ max_size < 0) ∧
  (ConversationStack__init__ max_size = Raise OverflowError
   ↔ max_size < - Deque.ssize_bound ∨ Deque.ssize_bound ≤ max_size) ∧
  (ConversationStack__init__ max_size = Ok (Samples.store max_size)
   ↔ 0 ≤ max_size < Deque.ssize_bound).
Proof.
  unfold ConversationStack__init__, Deque.new.
  destruct (Z.ltb_spec max_size (- Deque.ssize_bound)),
    (Z.leb_spec Deque.ssize_bound max_size),
    (Z.ltb_spec max_size 0); simpl;
    unfold Deque.ssize_bound in *;
    (split; [|split]); split; try done; lia.
Qed.

(** C9 (as stated) fails: capacity 0 is accepted. *)
Lemma capacity_zero_counterexample :
  ConversationStack__init__ 0 = Ok (Samples.store 0) ∧ ¬ refuses_capacity 0.
Proof.
  split; [done|]. intros [e He]. discriminate.
Qed.

(** ** Forking *)

Lemma getitem_ok {A} (d : Deque.deque A) i x :
  Deque.getitem d i = Ok x → - Deque.len d ≤ i < Deque.len d.
Proof.
  unfold Deque.getitem.
  destruct (Z.ltb_spec i 0), (Z.leb_spec 0 (i + Deque.len d)),
    (Z.ltb_spec (i + Deque.len d) (Deque.len d)),
    (Z.leb_spec 0 i), (Z.ltb_spec i (Deque.len d)); simpl; try done; lia.
Qed.

Lemma getitem_below {A} (d : Deque.deque A) i :
  i < - Deque.len d → Deque.getitem d i = Raise IndexError.
Proof.
  intros H. unfold Deque.getitem. pose proof (Nat2Z.is_nonneg (length (Deque.items d))).
  unfold Deque.len in *.
  destruct (Z.ltb_spec i 0); [|lia].
  by destruct (Z.leb_spec 0 (i + Z.of_nat (length (Deque.items d)))); [lia|].
Qed.

(** The item appended last is the rightmost one. *)
Lemma append_lookup_last {A} (d : Deque.deque A) x :
  1 ≤ Deque.maxlen d →
  Deque.len d ≤ Deque.maxlen d →
  Deque.items (Deque.append d x) !! Z.to_nat (Deque.len (Deque.append d x) - 1)
  = Some x.
Proof.
  intros H1 Hle. rewrite append_len by lia. rewrite append_items by done.
  rewrite last_n_lookup, length_app. simpl. unfold Deque.len in *.
  replace (length (Deque.items d) + 1 - Z.to_nat (Deque.maxlen d)
           + Z.to_nat ((Z.of_nat (length (Deque.items d)) + 1)
                         `min` Deque.maxlen d - 1))%nat
    with (length (Deque.items d) + 0)%nat by lia.
  by rewrite lookup_app_r, Nat.add_0_r, Nat.sub_diag by lia.
Qed.

Lemma append_len_mono {A} (d : Deque.deque A) x :
  0 ≤ Deque.maxlen d →
  Deque.len d ≤ Deque.maxlen d →
  Deque.len d ≤ Deque.len (Deque.append d x).
Proof. intros H0 Hle. rewrite append_len by done. lia. Qed.

Lemma create_branch_wf self from_index new_system_prompt new_user_prompt now :
  wf self →
  wf (create_branch self from_index new_system_prompt new_user_prompt now).1.
Proof.
  intros [H0 Hle]. unfold create_branch.
  destruct (Z.leb_spec (Deque.len (stack self)) from_index); [done|].
  simpl. destruct (Deque.getitem (stack self) from_index); [|done].
  split; simpl; [done|]. rewrite append_len by done. lia.
Qed.

(** The indices recorded for a branch after a push are the ones recorded
    before, and the returned index if the push went to that branch. *)
Lemma push_branch_ids self a b i :
  i ∈ default [] (branches (push self a).1 !! b) →
  i ∈ default [] (branches self !! b) ∨ i = (push self a).2.
Proof.
  unfold push. simpl.
  set (b0 := default (current_branch self) (arg_branch_id a)).
  destruct (decide (b0 = b)) as [<-|Hne].
  - rewrite lookup_insert_eq. simpl.
    intros [Hi|Hi%list_elem_of_singleton]%elem_of_app; [left|by right].
    destruct (branches self !! b0) as [ids|] eqn:Hb.
    + by rewrite Hb in Hi.
    + rewrite lookup_insert_eq in Hi. by apply elem_of_nil in Hi.
  - rewrite lookup_insert_ne by done. intros Hi. left.
    destruct (branches self !! b0); [done|]. by rewrite lookup_insert_ne in Hi.
Qed.

(** Every index that later pushes record is at or above the last position
    of the store they started from. *)
Lemma push_all_branch_ids self l b i :
  wf self →
  i ∈ default [] (branches (push_all self l) !! b) →
  i ∈ default [] (branches self !! b) ∨ Deque.len (stack self) - 1 ≤ i.
Proof.
  revert self. induction l as [|a l IH]; intros self Hwf Hi; [by left|].
  rewrite push_all_cons in Hi.
  assert (Deque.len (stack self) ≤ Deque.len (stack (push self a).1)) as Hmono.
  { rewrite push_stack. by apply append_len_mono; apply Hwf. }
  apply IH in Hi as [Hi|Hi]; [|right; lia|by apply push_wf].
  apply push_branch_ids in Hi as [Hi| ->]; [by left|right].
  rewrite push_index. lia.
Qed.

(** The node that a successful [create_branch] appends records
    [from_index] as its parent and is the only index of the new branch; the
    indices that later pushes add to the branch are not below it.  The
    parent is never above the index of the new node; it is strictly below
    it exactly when the store was not full before the call or [from_index]
    is not the last position. *)
Lemma create_branch_parent_index (self s' : ConversationStack)
    (from_index index : Z) (new_system_prompt new_user_prompt : option pystr)
    (now : pystr) :
  wf self →
  create_branch self from_index new_system_prompt new_user_prompt now
  = (s', Ok (Some index)) →
  current_branch s' = current_branch self + 1 ∧
  branches s' !! current_branch s' = Some [index] ∧
  (∃ node, get_item s' index = Some node ∧
           parent_index node = Some from_index ∧
           branch_id node = current_branch s') ∧
  (∀ l i, i ∈ default [] (branches (push_all s' l) !! current_branch s') →
          index ≤ i) ∧
  from_index ≤ index ∧
  (from_index < index ↔
     Deque.len (stack self) < capacity self ∨ from_index < capacity self - 1).
Proof.
  intros Hwf Hcb.
  pose proof (create_branch_wf self from_index new_system_prompt
                new_user_prompt now Hwf) as Hwf'.
  rewrite Hcb in Hwf'. simpl in Hwf'.
  destruct Hwf as [H0 Hle]. unfold create_branch in Hcb.
  destruct (Z.leb_spec (Deque.len (stack self)) from_index) as [|Hlt]; [done|].
  simpl in Hcb.
  destruct (Deque.getitem (stack self) from_index) as [parent_node|] eqn:Hget;
    [|done].
  apply getitem_ok in Hget.
  assert (1 ≤ Deque.maxlen (stack self)) as H1 by lia.
  injection Hcb as <- <-.
  set (new_node := set_parent_index _ _) in *.
  set (s' := mkStack _ _ _) in *.
  assert (branches s' !! current_branch s'
          = Some [Deque.len (stack s') - 1]) as Hids.
  { unfold s'. simpl. by rewrite lookup_insert_eq. }
  split; [done|]. split; [done|]. split; [|split].
  - exists new_node. split; [|done].
    rewrite get_item_lookup.
    + unfold get_stack, Deque.to_list, s'. simpl. by apply append_lookup_last.
    + unfold s'. simpl. rewrite append_len by done. lia.
  - intros l i Hi. apply push_all_branch_ids in Hi as [Hi|Hi]; [|done|done].
    rewrite Hids in Hi. apply list_elem_of_singleton in Hi. by subst.
  - unfold s', capacity. simpl. rewrite append_len by done. lia.
Qed.

(** The fork of [test_branching_functionality]: one push, then a branch
    from index 0. *)
Lemma create_branch_parent_index_test :
  let s := (push (Samples.store 10)
              (Samples.turn "Initial prompt" "Initial response" None)).1 in
  let s' := (create_branch s 0 (Some (py "New system"))
               (Some (py "Branch prompt")) (py "now")).1 in
  current_branch s' = current_branch s + 1 ∧
  branches s' !! current_branch s' = Some [1] ∧
  (∃ node, get_item s' 1 = Some node ∧
           parent_index node = Some 0 ∧
           branch_id node = current_branch s') ∧
  (∀ l i, i ∈ default [] (branches (push_all s' l) !! current_branch s') →
          1 ≤ i) ∧
  0 ≤ 1 ∧
  (0 < 1 ↔ Deque.len (stack s) < capacity s ∨ 0 < capacity s - 1).
Proof.
  intros s s'.
  apply (create_branch_parent_index s s' 0 1 (Some (py "New system"))
           (Some (py "Branch prompt")) (py "now")).
  - split; by vm_compute.
  - reflexivity.
Qed.

(** C6: the code on a full store.  Capacity 1 and one turn A at index 0:
    the fork from index 0 evicts A and takes its position, so the new node,
    the only node of branch 1, is recorded as its own parent; the parent is
    not strictly below the index of the new branch. *)
Lemma fork_in_full_store :
  let s := (push (Samples.store 1) (Samples.turn "A" "a" None)).1 in
  let r := create_branch s 0 None None (py "now") in
  r.2 = Ok (Some 0) ∧
  branches r.1 !! 1 = Some [0] ∧
  get_item r.1 0 ≫= parent_index = Some 0 ∧
  branch_id <$> get_item r.1 0 = Some 1 ∧
  ¬ fork_parent_earlier s 0 None None (py "now").
Proof.
  repeat split; try done.
  unfold fork_parent_earlier. simpl. intros H.
  specialize (H 0 0). simpl in H.
  assert (0 < 0); [|lia]. apply H; [done|].
  rewrite lookup_insert_eq. simpl. by apply list_elem_of_singleton.
Qed.

(** A branch whose lineage step comes back to itself has no finite walk. *)
Lemma lineage_loop self branch fuel :
  lineage_parent self branch = Some branch → lineage fuel self branch = None.
Proof.
  intros Hstep. induction fuel as [|fuel IH]; [done|].
  cbn [lineage]. by rewrite Hstep, IH.
Qed.

(** The walk ends as soon as some measure of the branches goes down with
    every lineage step. *)
Lemma lineage_terminates self (μ : Z → nat) :
  (∀ b b', lineage_parent self b = Some b' → (μ b' < μ b)%nat) →
  ∀ branch, is_Some (lineage (S (μ branch)) self branch).
Proof.
  intros Hdec.
  assert (∀ fuel b, (μ b < fuel)%nat → is_Some (lineage fuel self b)) as Hfuel.
  { induction fuel as [|fuel IH]; intros b Hlt; [lia|].
    cbn [lineage]. destruct (lineage_parent self b) as [b'|] eqn:Hstep; [|done].
    apply fmap_is_Some, IH. apply Hdec in Hstep. lia. }
  intros branch. apply Hfuel. lia.
Qed.

(** In a store of capacity 1, the lineage step from the branch forked from
    index 0 yields that branch again, and the walk never ends. *)
Lemma lineage_cycle fuel :
  let s := (push (Samples.store 1) (Samples.turn "A" "a" None)).1 in
  let s' := (create_branch s 0 None None (py "now")).1 in
  lineage_parent s' 1 = Some 1 ∧ lineage fuel s' 1 = None.
Proof. split; [done|]. by apply lineage_loop. Qed.

(** An index below [-len] makes [create_branch] raise, after it has
    advanced [current_branch]. *)
Lemma create_branch_below_range self from_index new_system_prompt new_user_prompt now :
  from_index < - Deque.len (stack self) →
  create_branch self from_index new_system_prompt new_user_prompt now
  = (mkStack (stack self) (branches self) (current_branch self + 1),
     Raise IndexError).
Proof.
  intros H. unfold create_branch.
  pose proof (Nat2Z.is_nonneg (length (Deque.items (stack self)))).
  unfold Deque.len in *.
  destruct (Z.leb_spec (Z.of_nat (length (Deque.items (stack self)))) from_index);
    [lia|].
  simpl. rewrite getitem_below; [done|]. unfold Deque.len. lia.
Qed.

Lemma getitem_in_range {A} (d : Deque.deque A) i :
  0 ≤ i < Deque.len d →
  ∃ x, Deque.getitem d i = Ok x ∧ Deque.items d !! Z.to_nat i = Some x.
Proof.
  intros Hi. unfold Deque.getitem.
  destruct (Z.ltb_spec i 0); [lia|].
  destruct (Z.leb_spec 0 i); [|lia].
  destruct (Z.ltb_spec i (Deque.len d)); [|lia].
  simpl. destruct (Deque.items d !! Z.to_nat i) as [x|] eqn:Hl; [by exists x|].
  apply lookup_ge_None in Hl. unfold Deque.len in *. lia.
Qed.

(** For an index that is not negative, [create_branch] returns [None]
    exactly when [get_item] finds no node, and does not raise. *)
Lemma create_branch_not_found_nonneg self from_index new_system_prompt new_user_prompt now :
  0 ≤ from_index →
  let r := (create_branch self from_index new_system_prompt new_user_prompt now).2 in
  (r = Ok None ↔ get_item self from_index = None) ∧ (∀ e, r ≠ Raise e).
Proof.
  intros Hi r. unfold r, create_branch.
  destruct (Z.leb_spec (Deque.len (stack self)) from_index) as [Hge|Hlt]; simpl.
  - rewrite get_item_lookup by done. split; [|done].
    split; [|done]. intros _. apply lookup_ge_None.
    unfold get_stack, Deque.to_list, Deque.len in *. lia.
  - destruct (getitem_in_range (stack self) from_index) as (x & -> & Hl); [lia|].
    simpl. rewrite get_item_lookup by done.
    unfold get_stack, Deque.to_list. rewrite Hl. by repeat split.
Qed.

(** C5: the code at a negative index.  On an empty store [create_branch(-1)]
    raises [IndexError] and leaves [current_branch] advanced, although
    [get_item(-1)] reports that there is no such node. *)
Lemma create_branch_negative_index :
  get_item (Samples.store 10) (-1) = None ∧
  create_branch (Samples.store 10) (-1) None None (py "now")
  = (mkStack (Deque.mk [] 10) ∅ 1, Raise IndexError) ∧
  ¬ fork_not_found_iff (Samples.store 10) (-1) None None (py "now").
Proof.
  split; [done|]. split; [done|].
  intros [_ H]. by apply (H IndexError).
Qed.

(** On a store that is not empty, [create_branch(-1)] forks from the last
    node instead of reporting that index -1 denotes no node. *)
Lemma fork_from_minus_one :
  let s := (push (Samples.store 10) (Samples.turn "A" "a" None)).1 in
  get_item s (-1) = None ∧
  (create_branch s (-1) None None (py "now")).2 = Ok (Some 1) ∧
  ¬ fork_not_found_iff s (-1) None None (py "now").
Proof.
  split; [done|]. split; [done|].
  intros [[_ H] _]. by specialize (H eq_refl).
Qed.

(** ** Branch conversations *)

(** C2: the code after an eviction.  Capacity 2; A goes to branch 0, then B
    and C to branch 1.  The push of C evicts A, index 0 now denotes B, and
    the conversation of branch 0 is reported as B, a node of branch 1. *)
Lemma branch_conversation_after_eviction :
  let s := push_all (Samples.store 2)
             [Samples.turn "A" "a" (Some 0); Samples.turn "B" "b" (Some 1);
              Samples.turn "C" "c" (Some 1)] in
  branches s !! 0 = Some [0] ∧
  get_branch_conversation s 0 20
  = Ok [push_node (Samples.store 2) (Samples.turn "B" "b" (Some 1))] ∧
  ¬ branch_turns_of_branch s 0 20.
Proof.
  split; [done|]. split; [done|].
  intros (nodes & Hget & Hall). vm_compute in Hget. injection Hget as <-.
  specialize (Hall _ (list_elem_of_here _ _)). discriminate.
Qed.

(** The scenario of capacity 3 and turns A, B, C, D on branch 0: the indices
    recorded for the branch are 0, 1, 2, 2 and D is reported twice. *)
Lemma branch_conversation_duplicates :
  let s := push_all (Samples.store 3)
             [Samples.turn "A" "a" None; Samples.turn "B" "b" None;
              Samples.turn "C" "c" None; Samples.turn "D" "d" None] in
  branches s !! 0 = Some [0; 1; 2; 2] ∧
  get_branch_conversation s 0 10
  = Ok (push_node (Samples.store 3) <$>
          [Samples.turn "B" "b" None; Samples.turn "C" "c" None;
           Samples.turn "D" "d" None; Samples.turn "D" "d" None]).
Proof. by split. Qed.

(** With capacity 0 nothing is stored, [push] records index -1, and the
    conversation of the branch raises. *)
Lemma branch_conversation_capacity_zero :
  let s := (push (Samples.store 0) (Samples.turn "A" "a" None)).1 in
  (push (Samples.store 0) (Samples.turn "A" "a" None)).2 = -1 ∧
  get_stack s = [] ∧
  get_branch_conversation s 0 20 = Raise IndexError.
Proof. by repeat split. Qed.

(** ** strip *)

Section strip_facts.
Implicit Types s t : pystr.

Lemma lstrip_split s :
  ∃ pre, s = pre ++ lstrip s ∧ forallb isspace pre = true ∧
         ∀ c, head (lstrip s) = Some c → isspace c = false.
Proof.
  induction s as [|c s (pre & Heq & Hpre & Hhd)].
  - by exists [].
  - simpl. destruct (isspace c) eqn:Hc.
    + exists (c :: pre). simpl. rewrite Hc, Hpre. by rewrite <- Heq.
    + exists []. simpl. split; [done|]. split; [done|]. by intros ? [= <-].
Qed.

Lemma lstrip_nil_iff s : lstrip s = [] ↔ blank s = true.
Proof.
  unfold blank. induction s as [|c s IH]; [done|].
  simpl. destruct (isspace c); simpl; [done|]. split; discriminate.
Qed.

Lemma blank_app s t : blank (s ++ t) = blank s && blank t.
Proof. unfold blank. apply forallb_app. Qed.

Lemma blank_rev s : blank (rev s) = blank s.
Proof.
  induction s as [|c s IH]; [done|].
  simpl. rewrite blank_app, IH. simpl. unfold blank at 2. simpl.
  by rewrite andb_true_r, andb_comm.
Qed.

Lemma last_rev s : last (rev s) = head s.
Proof. destruct s as [|c s]; [done|]. simpl. apply last_snoc. Qed.

Lemma rstrip_split s :
  ∃ post, s = rstrip s ++ post ∧ forallb isspace post = true ∧
          ∀ c, last (rstrip s) = Some c → isspace c = false.
Proof.
  unfold rstrip. destruct (lstrip_split (rev s)) as (pre & Heq & Hpre & Hhd).
  exists (rev pre). split; [|split].
  - rewrite <- rev_app_distr, <- Heq. by rewrite rev_involutive.
  - fold (blank (rev pre)). by rewrite blank_rev.
  - intros c Hc. apply Hhd. by rewrite <- last_rev.
Qed.

Lemma rstrip_nil_iff s : rstrip s = [] ↔ blank s = true.
Proof.
  unfold rstrip. rewrite <- blank_rev, <- lstrip_nil_iff.
  split; [|by intros ->].
  intros H. apply (f_equal (@rev N)) in H. by rewrite rev_involutive in H.
Qed.

Lemma blank_lstrip s : blank (lstrip s) = blank s.
Proof.
  unfold blank. induction s as [|c s IH]; [done|].
  simpl. destruct (isspace c) eqn:Hc; simpl; [done|]. by rewrite Hc.
Qed.

Lemma strip_nil_iff s : strip s = [] ↔ blank s = true.
Proof. unfold strip. by rewrite rstrip_nil_iff, blank_lstrip. Qed.

(** [strip] removes the whitespace at both ends and nothing else. *)
Lemma strip_stripped_of s : stripped_of s (strip s).
Proof.
  destruct (lstrip_split s) as (pre & Heq & Hpre & Hhd).
  destruct (rstrip_split (lstrip s)) as (post & Heq' & Hpost & Hlast).
  exists pre, post. fold (strip s) in *.
  split; [by rewrite <- Heq'|]. split; [done|]. split; [done|].
  split; [|done].
  intros c Hc. apply Hhd. rewrite Heq'.
  destruct (strip s); [done|]. by simpl in *.
Qed.

Lemma truthy_nil_iff s : truthy s = false ↔ s = [].
Proof. by destruct s. Qed.

(** The test [content and content.strip()] is the negation of [blank]. *)
Lemma truthy_strip s : truthy s && truthy (strip s) = negb (blank s).
Proof.
  destruct (blank s) eqn:Hb; simpl.
  - apply strip_nil_iff in Hb. rewrite Hb. simpl. apply andb_false_r.
  - destruct (truthy (strip s)) eqn:Ht.
    + destruct s; [done|]. done.
    + apply truthy_nil_iff, strip_nil_iff in Ht. congruence.
Qed.

End strip_facts.

(** ** The message builder *)

Lemma add_line_msg self role content :
  msg (add_line self role content) = msg self ++ emit role content.
Proof.
  unfold add_line, emit. destruct content as [s|]; [|by rewrite app_nil_r].
  rewrite truthy_strip. destruct (blank s); simpl; [by rewrite app_nil_r|done].
Qed.

Lemma guarded_add_line_msg self role content :
  msg (if nonblank content then add_line self role content else self)
  = msg self ++ emit role content.
Proof.
  destruct (nonblank content) eqn:Hnb; [apply add_line_msg|].
  unfold nonblank, emit in *. destruct content as [s|]; [|by rewrite app_nil_r].
  rewrite truthy_strip in Hnb. destruct (blank s); [|done]. by rewrite app_nil_r.
Qed.

Lemma build_node_msg self node :
  msg (build_node self node) = msg self ++ assemble_turn node.
Proof.
  unfold build_node, add_system, add_user, add_assistant, assemble_turn.
  by rewrite !guarded_add_line_msg, <- !app_assoc.
Qed.

Lemma foldl_build_node_msg self nodes :
  msg (foldl build_node self nodes) = msg self ++ assemble nodes.
Proof.
  revert self. induction nodes as [|node nodes IH]; intros self.
  - by rewrite app_nil_r.
  - cbn [foldl]. rewrite IH, build_node_msg. unfold assemble.
    by rewrite bind_cons, app_assoc.
Qed.

Lemma build_from_conversation_msg self nodes :
  msg (build_from_conversation self nodes) = assemble nodes.
Proof. unfold build_from_conversation. by rewrite foldl_build_node_msg. Qed.

(** C7. Whatever the builder held before, [build_from_conversation] leaves
    in it exactly the messages that the rules of the specification give:
    turn by turn in input order, for each turn a system, then a user, then
    an assistant message, each only if its field is present and not blank. *)
Theorem build_from_conversation_assemble (self : MessageBuilder)
    (conversation_nodes : list ConversationNode) :
  get_message (build_from_conversation self conversation_nodes)
  = assemble conversation_nodes.
Proof. apply build_from_conversation_msg. Qed.

(** A blank field gives no message. *)
Lemma emit_blank role field :
  default true (blank <$> field) = true → emit role field = [].
Proof. destruct field as [s|]; [|done]. simpl. by intros ->. Qed.

Lemma elem_of_emit m role field :
  m ∈ emit role field →
  ∃ s, field = Some s ∧ blank s = false ∧ m = mkMsg role (strip s).
Proof.
  unfold emit. destruct field as [s|]; [|by intros ?%elem_of_nil].
  destruct (blank s) eqn:Hb; [by intros ?%elem_of_nil|].
  intros ->%list_elem_of_singleton. by exists s.
Qed.

(** C10. Every message that [build_from_conversation] produces comes from
    a field of one of the nodes, under the role of that field, and its
    content is that field stripped: not empty, equal to the field without
    its leading and trailing whitespace. *)
Theorem message_content_stripped (self : MessageBuilder)
    (conversation_nodes : list ConversationNode) (m : message) :
  m ∈ get_message (build_from_conversation self conversation_nodes) →
  ∃ node s,
    node ∈ conversation_nodes ∧
    (role m, Some s) ∈ fields node ∧
    content m = strip s ∧
    content m ≠ [] ∧
    stripped_of s (content m).
Proof.
  unfold get_message. rewrite build_from_conversation_msg. unfold assemble.
  intros (node & Hm & Hnode)%list_elem_of_bind.
  assert (∃ r s, (r, Some s) ∈ fields node ∧ blank s = false ∧
                 m = mkMsg r (strip s)) as (r & s & Hf & Hb & ->).
  { unfold assemble_turn in Hm. unfold fields.
    apply elem_of_app in Hm as [Hm|Hm]; [|apply elem_of_app in Hm as [Hm|Hm]];
      apply elem_of_emit in Hm as (s & Heq & Hb & ->);
      eexists _, s; rewrite <- Heq; (split; [|done]).
    - apply list_elem_of_here.
    - apply list_elem_of_further, list_elem_of_here.
    - do 2 apply list_elem_of_further. apply list_elem_of_here. }
  exists node, s. simpl. repeat split; try done.
  - intros Hnil%strip_nil_iff. congruence.
  - apply strip_stripped_of.
Qed.

Lemma message_content_stripped_witness :
  ∃ node s,
    node ∈ [mkNode None (Some (py "  hi there ")) (Some []) (py "now") 0 None] ∧
    (role (mkMsg (py "user") (py "hi there")), Some s) ∈ fields node ∧
    content (mkMsg (py "user") (py "hi there")) = strip s ∧
    content (mkMsg (py "user") (py "hi there")) ≠ [] ∧
    stripped_of s (content (mkMsg (py "user") (py "hi there"))).
Proof.
  apply (message_content_stripped MessageBuilder__init__
           [mkNode None (Some (py "  hi there ")) (Some []) (py "now") 0 None]
           (mkMsg (py "user") (py "hi there"))).
  vm_compute. apply list_elem_of_here.
Defined.

(** A turn with an empty user prompt and the response "hi" gives one
    assistant message. *)
Example assemble_blank_user :
  get_message
    (build_from_conversation MessageBuilder__init__
       [mkNode (Some []) (Some []) (Some (py "hi")) (py "now") 0 None])
  = [mkMsg (py "assistant") (py "hi")].
Proof. reflexivity. Qed.

(** The messages of the turns B, C, D of the end-to-end scenario. *)
Example assemble_scenario :
  get_message
    (build_from_conversation MessageBuilder__init__
       [mkNode None (Some (py "u1")) (Some (py "r1")) (py "now") 0 None;
        mkNode None (Some (py "u2")) (Some (py "r2")) (py "now") 0 None;
        mkNode None (Some (py "u3")) None (py "now") 0 None])
  = [mkMsg (py "user") (py "u1"); mkMsg (py "assistant") (py "r1");
     mkMsg (py "user") (py "u2"); mkMsg (py "assistant") (py "r2");
     mkMsg (py "user") (py "u3")].
Proof. reflexivity. Qed.

(** The builder of [test_message_builder]. *)
Example test_message_builder :
  role <$> get_message
    (add_assistant
       (add_user (add_system MessageBuilder__init__ (Some (py "You are helpful")))
          (Some (py "Hello")))
       (Some (py "Hi there")))
  = [py "system"; py "user"; py "assistant"].
Proof. reflexivity. Qed.

(** ** Branch conversations while nothing has been evicted *)

Lemma comprehension_resolve (d : Deque.deque ConversationNode)
    (ids : list Z) (nodes : list ConversationNode) :
  Forall2 (λ i node, 0 ≤ i ∧ Deque.items d !! Z.to_nat i = Some node) ids nodes →
  comprehension (Deque.getitem d) (filter (λ i, i < Deque.len d) ids) = Ok nodes.
Proof.
  induction 1 as [|i node ids nodes [Hi Hl] _ IH]; [done|].
  assert (i < Deque.len d) as Hlt.
  { apply lookup_lt_Some in Hl. unfold Deque.len. lia. }
  rewrite filter_cons_True by done. cbn [comprehension].
  destruct (getitem_in_range d i) as (x & -> & Hx); [lia|].
  simpl. rewrite IH. simpl. congruence.
Qed.

Lemma push_branch_ids_resolve self a b :
  wf self →
  Deque.len (stack self) < capacity self →
  branch_ids_resolve self b → branch_ids_resolve (push self a).1 b.
Proof.
  intros Hwf Hroom Hinv. unfold branch_ids_resolve in *.
  assert (get_stack (push self a).1 = get_stack self ++ [push_node self a]) as ->.
  { unfold get_stack, Deque.to_list. rewrite push_stack.
    rewrite append_items by apply Hwf. apply last_n_all.
    rewrite length_app. unfold capacity, Deque.len in *. simpl. lia. }
  assert ((push self a).2 = Deque.len (stack self)) as Hidx.
  { rewrite push_index_len by done. lia. }
  assert (Forall2 (λ i node, 0 ≤ i ∧
            (get_stack self ++ [push_node self a]) !! Z.to_nat i = Some node)
            (default [] (branches self !! b))
            (filter (λ node, branch_id node = b) (get_stack self))) as Hold.
  { eapply Forall2_impl; [done|]. intros i node [Hi Hl]. split; [done|].
    by apply lookup_app_l_Some. }
  rewrite filter_app.
  unfold push. simpl. fold (push_node self a).
  set (b0 := default (current_branch self) (arg_branch_id a)).
  assert (branch_id (push_node self a) = b0) as Hb0 by done.
  destruct (decide (b0 = b)) as [<-|Hne].
  - rewrite lookup_insert_eq. simpl. rewrite filter_cons_True by done.
    apply Forall2_app.
    + destruct (branches self !! b0) as [ids|] eqn:Hb; rewrite ?Hb in *;
        [done|]. by rewrite lookup_insert_eq.
    + constructor; [|constructor]. fold (Deque.len (stack self)).
      pose proof (push_index self a) as Hp. rewrite Hidx in Hp.
      unfold push in Hp. simpl in Hp. fold (push_node self a) in Hp.
      rewrite <- Hp. split; [unfold Deque.len; lia|].
      rewrite lookup_app_r; unfold get_stack, Deque.to_list, Deque.len; [|lia].
      by replace (Z.to_nat (Z.of_nat (length (Deque.items (stack self))))
                  - length (Deque.items (stack self)))%nat with 0%nat by lia.
  - rewrite filter_cons_False by congruence. rewrite app_nil_r.
    rewrite lookup_insert_ne by done.
    destruct (branches self !! b0); [done|]. by rewrite lookup_insert_ne.
Qed.

Lemma push_all_branch_ids_resolve self l b :
  wf self →
  Deque.len (stack self) + Z.of_nat (length l) ≤ capacity self →
  branch_ids_resolve self b → branch_ids_resolve (push_all self l) b.
Proof.
  revert self. induction l as [|a l IH]; intros self Hwf Hroom Hinv; [done|].
  rewrite push_all_cons. simpl length in Hroom.
  apply IH; [by apply push_wf| |apply push_branch_ids_resolve; [done|lia|done]].
  rewrite push_capacity, push_stack, append_len by apply Hwf.
  unfold capacity in *. lia.
Qed.

(** X13. As long as the pushes fit the capacity, [get_branch_conversation]
    returns the nodes of the last [limit] pushes of the branch, in push
    order. *)
Lemma branch_conversation_no_eviction (N : Z) (l : list push_args) (b limit : Z) :
  Z.of_nat (length l) ≤ N →
  1 ≤ limit →
  get_branch_conversation (push_all (Samples.store N) l) b limit
  = Ok (last_n (Z.to_nat limit)
          (filter (λ node, branch_id node = b)
             (push_node (Samples.store N) <$> l))).
Proof.
  intros Hfit Hlimit.
  assert (0 ≤ N) as HN by lia.
  pose proof (store_wf N HN) as Hwf.
  assert (branch_ids_resolve (push_all (Samples.store N) l) b) as Hinv.
  { apply push_all_branch_ids_resolve; [done| |].
    - unfold capacity, Deque.len. simpl. lia.
    - unfold branch_ids_resolve. simpl. rewrite lookup_empty. constructor. }
  unfold branch_ids_resolve in Hinv.
  assert (get_stack (push_all (Samples.store N) l)
          = push_node (Samples.store N) <$> l) as Hst.
  { rewrite get_stack_push_all by done. simpl. apply last_n_all.
    rewrite length_fmap. unfold capacity. simpl. lia. }
  rewrite Hst in Hinv. unfold get_branch_conversation.
  destruct (branches (push_all (Samples.store N) l) !! b) as [ids|] eqn:Hb.
  - simpl in Hinv. rewrite slice_from_neg by done. unfold last_n.
    rewrite <- (Forall2_length _ _ _ Hinv).
    apply comprehension_resolve. apply Forall2_drop.
    eapply Forall2_impl; [done|]. intros i node [Hi Hl]. split; [done|].
    rewrite <- Hst in Hl. exact Hl.
  - simpl in Hinv. apply Forall2_nil_inv_l in Hinv. by rewrite Hinv.
Qed.

(** * Further properties of the store *)

(** ** get_item and the bounds of the deque *)

(** [get_item] finds nothing exactly for an index outside [0, len). *)
Lemma get_item_None_iff (self : ConversationStack) (index : Z) :
  get_item self index = None ↔ index < 0 ∨ Deque.len (stack self) ≤ index.
Proof.
  split.
  - intros Hnone. destruct (decide (0 ≤ index)) as [Hi|]; [|lia]. right.
    rewrite get_item_lookup in Hnone by done.
    apply lookup_ge_None in Hnone.
    unfold get_stack, Deque.to_list, Deque.len in *. lia.
  - intros [Hneg|Hge]; [by apply get_item_negative|].
    pose proof (Nat2Z.is_nonneg (length (Deque.items (stack self)))).
    unfold Deque.len in *. rewrite get_item_lookup by lia.
    apply lookup_ge_None. unfold get_stack, Deque.to_list. lia.
Qed.

(** ** The lists of indices after a call *)

Lemma push_branches_lookup self a b :
  branches (push self a).1 !! b
  = if decide (default (current_branch self) (arg_branch_id a) = b)
    then Some (default [] (branches self !! b) ++ [(push self a).2])
    else branches self !! b.
Proof.
  unfold push. simpl.
  set (b0 := default (current_branch self) (arg_branch_id a)).
  destruct (decide (b0 = b)) as [<-|Hne].
  - rewrite lookup_insert_eq. do 2 f_equal.
    destruct (branches self !! b0) as [ids|] eqn:Hb; [by rewrite Hb|].
    by rewrite lookup_insert_eq.
  - rewrite lookup_insert_ne by done.
    destruct (branches self !! b0); [done|]. by rewrite lookup_insert_ne.
Qed.

(** [push] adds the returned index at the end of the list of its branch,
    leaves the lists of all other branches as they are, and changes neither
    [current_branch] nor the capacity. *)
Lemma push_frame (self : ConversationStack) (a : push_args) :
  let b0 := default (current_branch self) (arg_branch_id a) in
  branches (push self a).1 !! b0
  = Some (default [] (branches self !! b0) ++ [(push self a).2]) ∧
  (∀ b, b ≠ b0 → branches (push self a).1 !! b = branches self !! b) ∧
  current_branch (push self a).1 = current_branch self ∧
  capacity (push self a).1 = capacity self.
Proof.
  intros b0. split; [|split; [|done]].
  - rewrite push_branches_lookup. fold b0. by destruct (decide (b0 = b0)).
  - intros b Hne. rewrite push_branches_lookup. fold b0.
    by destruct (decide (b0 = b)).
Qed.

(** X10. The outcomes of [create_branch]: [None] with the store untouched for an
    index at or above [len]; [IndexError], with [current_branch] already
    advanced, for an index below [-len]; a new node for every index in
    between, the negative ones included. *)
Lemma create_branch_outcome (self : ConversationStack) (from_index : Z)
    (new_system_prompt new_user_prompt : option pystr) (now : pystr) :
  let r := create_branch self from_index new_system_prompt new_user_prompt now in
  (Deque.len (stack self) ≤ from_index → r = (self, Ok None)) ∧
  (from_index < - Deque.len (stack self) →
     r = (mkStack (stack self) (branches self) (current_branch self + 1),
          Raise IndexError)) ∧
  (- Deque.len (stack self) ≤ from_index < Deque.len (stack self) →
     ∃ index, r.2 = Ok (Some index) ∧
              current_branch r.1 = current_branch self + 1 ∧
              branches r.1 !! (current_branch self + 1) = Some [index] ∧
              ∀ b, b ≠ current_branch self + 1 →
                   branches r.1 !! b = branches self !! b).
Proof.
  intros r. split; [|split].
  - intros Hge. unfold r, create_branch.
    by destruct (Z.leb_spec (Deque.len (stack self)) from_index); [|lia].
  - apply create_branch_below_range.
  - intros [Hlo Hhi]. unfold r, create_branch.
    destruct (Z.leb_spec (Deque.len (stack self)) from_index); [lia|].
    simpl.
    assert (∃ x, Deque.getitem (stack self) from_index = Ok x) as [x ->].
    { destruct (decide (0 ≤ from_index)) as [Hi|Hi].
      - destruct (getitem_in_range (stack self) from_index) as (x & ? & _);
          [lia|by exists x].
      - destruct (getitem_in_range (stack self)
                    (from_index + Deque.len (stack self))) as (x & Hx & _);
          [lia|]. exists x. unfold Deque.getitem in *.
        destruct (Z.ltb_spec from_index 0); [|lia].
        destruct (Z.ltb_spec (from_index + Deque.len (stack self)) 0); [lia|].
        done. }
    eexists. simpl. split; [done|]. split; [done|].
    split; [by rewrite lookup_insert_eq|].
    intros b Hne. by rewrite lookup_insert_ne.
Qed.

(** ** Invariants of every sequence of calls *)

Lemma getitem_raises {A} (d : Deque.deque A) i e :
  Deque.getitem d i = Raise e → e = IndexError.
Proof.
  unfold Deque.getitem.
  destruct ((0 <=? _) && _); [|by intros [= <-]].
  destruct (Deque.items d !! _); [done|by intros [= <-]].
Qed.

(** What a call of [create_branch] can do to the store. *)
Lemma create_branch_cases self from_index new_system_prompt new_user_prompt now :
  let r := create_branch self from_index new_system_prompt new_user_prompt now in
  let cb := current_branch self + 1 in
  r = (self, Ok None) ∨
  r = (mkStack (stack self) (branches self) cb, Raise IndexError) ∨
  ∃ node,
    branch_id node = cb ∧
    1 ≤ Deque.len (stack self) ∧
    r = (mkStack (Deque.append (stack self) node)
           (<[cb := [Deque.len (Deque.append (stack self) node) - 1]]>
              (branches self)) cb,
         Ok (Some (Deque.len (Deque.append (stack self) node) - 1))).
Proof.
  intros r cb. unfold r, create_branch.
  destruct (Z.leb_spec (Deque.len (stack self)) from_index); [by left|].
  right. simpl.
  destruct (Deque.getitem (stack self) from_index) as [parent|e] eqn:Hget.
  - right. apply getitem_ok in Hget. eexists. split; [|split; [lia|done]]. done.
  - left. by apply getitem_raises in Hget as ->.
Qed.

Lemma step_wf self c : wf self → wf (step self c).
Proof.
  destruct c; [apply push_wf|apply create_branch_wf].
Qed.

Lemma step_capacity self c : capacity (step self c) = capacity self.
Proof.
  destruct c as [a|i ns nu now]; [done|]. cbn [step].
  destruct (create_branch_cases self i ns nu now) as [->|[->|(node & _ & _ & ->)]];
    done.
Qed.

Lemma run_cons self c cs : run self (c :: cs) = run (step self c) cs.
Proof. done. Qed.

Lemma run_wf self cs : wf self → wf (run self cs).
Proof.
  revert self. induction cs as [|c cs IH]; intros self Hwf; [done|].
  rewrite run_cons. by apply IH, step_wf.
Qed.

Lemma run_capacity self cs : capacity (run self cs) = capacity self.
Proof.
  revert self. induction cs as [|c cs IH]; intros self; [done|].
  by rewrite run_cons, IH, step_capacity.
Qed.

(** X1. However many nodes are pushed or forked into a store built with
    [max_size], it never holds more than [max_size] nodes, and its bound
    stays [max_size]. *)
Lemma run_bounded (max_size : Z) (self : ConversationStack) (cs : list call) :
  ConversationStack__init__ max_size = Ok self →
  Deque.len (stack (run self cs)) ≤ max_size ∧ capacity (run self cs) = max_size.
Proof.
  intros Hinit. destruct (init_wf _ _ Hinit) as (Hwf & Hcap & _).
  pose proof (run_wf self cs Hwf) as [_ Hle].
  pose proof (run_capacity self cs) as Hc. rewrite Hcap in Hc.
  unfold capacity in Hc. split; [lia|done].
Qed.

Lemma run_bounded_witness :
  Deque.len (stack (run (Samples.store 2)
                      [Push (Samples.turn "A" "a" None);
                       CreateBranch 0 None None (py "now");
                       Push (Samples.turn "B" "b" (Some 1));
                       CreateBranch (-1) None None (py "now")])) ≤ 2 ∧
  capacity (run (Samples.store 2)
              [Push (Samples.turn "A" "a" None);
               CreateBranch 0 None None (py "now");
               Push (Samples.turn "B" "b" (Some 1));
               CreateBranch (-1) None None (py "now")]) = 2.
Proof. apply (run_bounded 2 (Samples.store 2)). reflexivity. Defined.

Lemma append_len_pos {A} (d : Deque.deque A) x :
  1 ≤ Deque.maxlen d → Deque.len d ≤ Deque.maxlen d →
  1 ≤ Deque.len (Deque.append d x).
Proof.
  intros H1 Hle. rewrite append_len by lia.
  pose proof (Nat2Z.is_nonneg (length (Deque.items d))). unfold Deque.len. lia.
Qed.

Lemma step_indices_in_range self c :
  1 ≤ capacity self → wf self →
  indices_in_range self → indices_in_range (step self c).
Proof.
  intros H1 [H0 Hle] Hinv. unfold capacity in H1.
  destruct c as [a|from ns nu now]; cbn [step].
  - intros b ids i Hb Hi. rewrite push_branches_lookup in Hb.
    rewrite push_stack.
    pose proof (append_len_mono (stack self) (push_node self a) H0 Hle).
    pose proof (append_len_pos (stack self) (push_node self a) H1 Hle).
    destruct (decide _) as [_|_].
    + injection Hb as <-. apply elem_of_app in Hi as [Hi|Hi].
      * destruct (branches self !! b) as [old|] eqn:Hold;
          [|by apply elem_of_nil in Hi].
        specialize (Hinv b old i Hold Hi). lia.
      * apply list_elem_of_singleton in Hi as ->. lia.
    + specialize (Hinv b ids i Hb Hi). lia.
  - destruct (create_branch_cases self from ns nu now)
      as [->|[->|(node & _ & _ & ->)]]; [done|done|]. simpl.
    pose proof (append_len_mono (stack self) node H0 Hle).
    pose proof (append_len_pos (stack self) node H1 Hle).
    intros b ids i Hb Hi. simpl in *.
    destruct (decide (current_branch self + 1 = b)) as [<-|Hne].
    + rewrite lookup_insert_eq in Hb. injection Hb as <-.
      apply list_elem_of_singleton in Hi as ->. lia.
    + rewrite lookup_insert_ne in Hb by done.
      specialize (Hinv b ids i Hb Hi). lia.
Qed.

Lemma step_branches_nonempty self c :
  branches_nonempty self → branches_nonempty (step self c).
Proof.
  intros Hinv. destruct c as [a|from ns nu now]; cbn [step].
  - intros b ids Hb. rewrite push_branches_lookup in Hb.
    destruct (decide _) as [_|_]; [|by eapply Hinv].
    injection Hb as <-. by intros [_ ?]%app_eq_nil.
  - destruct (create_branch_cases self from ns nu now)
      as [->|[->|(node & _ & _ & ->)]]; [done|done|]. simpl.
    intros b ids Hb. simpl in *.
    destruct (decide (current_branch self + 1 = b)) as [<-|Hne].
    + rewrite lookup_insert_eq in Hb. by injection Hb as <-.
    + rewrite lookup_insert_ne in Hb by done. by eapply Hinv.
Qed.

Lemma elem_of_append_items {A} (d : Deque.deque A) x y :
  y ∈ Deque.items (Deque.append d x) → y ∈ Deque.items d ∨ y = x.
Proof.
  unfold Deque.append. simpl. intros Hy.
  assert (y ∈ Deque.items d ++ [x]) as [?|?%list_elem_of_singleton]%elem_of_app;
    [|by left|by right].
  destruct (_ <? _); [|done].
  destruct (Deque.items d ++ [x]); [done|]. by apply list_elem_of_further.
Qed.

Lemma step_branches_known self c :
  branches_known self → branches_known (step self c).
Proof.
  intros Hinv. destruct c as [a|from ns nu now]; cbn [step].
  - intros node Hnode. unfold get_stack, Deque.to_list in Hnode.
    rewrite push_stack in Hnode. rewrite push_branches_lookup.
    destruct (decide _) as [_|Hne]; [done|].
    apply elem_of_append_items in Hnode as [Hnode| ->]; [by apply Hinv|].
    by destruct Hne.
  - destruct (create_branch_cases self from ns nu now)
      as [->|[->|(new & Hb & _ & ->)]]; [done|done|]. simpl.
    intros node Hnode. unfold get_stack, Deque.to_list in Hnode. simpl in *.
    destruct (decide (current_branch self + 1 = branch_id node)) as [<-|Hne].
    + by rewrite lookup_insert_eq.
    + rewrite lookup_insert_ne by done.
      apply elem_of_append_items in Hnode as [Hnode| ->]; [by apply Hinv|].
      by destruct Hne.
Qed.

Lemma run_invariants self cs :
  1 ≤ capacity self → wf self →
  indices_in_range self → branches_nonempty self → branches_known self →
  indices_in_range (run self cs) ∧ branches_nonempty (run self cs) ∧
  branches_known (run self cs).
Proof.
  revert self. induction cs as [|c cs IH]; intros self H1 Hwf Hr Hn Hk; [done|].
  rewrite run_cons. apply IH.
  - by rewrite step_capacity.
  - by apply step_wf.
  - by apply step_indices_in_range.
  - by apply step_branches_nonempty.
  - by apply step_branches_known.
Qed.

Lemma store_invariants n :
  indices_in_range (Samples.store n) ∧ branches_nonempty (Samples.store n) ∧
  branches_known (Samples.store n).
Proof.
  split; [|split].
  - intros b ids i Hb. simpl in Hb. by rewrite lookup_empty in Hb.
  - intros b ids Hb. simpl in Hb. by rewrite lookup_empty in Hb.
  - intros node Hnode. by apply elem_of_nil in Hnode.
Qed.

Lemma run_branches_known self cs :
  branches_known self → branches_known (run self cs).
Proof.
  revert self. induction cs as [|c cs IH]; intros self Hk; [done|].
  rewrite run_cons. by apply IH, step_branches_known.
Qed.

(** X5. In a store built by [ConversationStack(max_size)], after any calls, the
    branch of every resident node has a list of indices. *)
Lemma resident_branch_known (max_size : Z) (self : ConversationStack)
    (cs : list call) (node : ConversationNode) :
  ConversationStack__init__ max_size = Ok self →
  node ∈ get_stack (run self cs) →
  is_Some (branches (run self cs) !! branch_id node).
Proof.
  intros [-> _]%init_Ok_inv. apply run_branches_known.
  apply (store_invariants max_size).
Qed.

Lemma resident_branch_known_witness :
  is_Some (branches (run (Samples.store 2)
                       [Push (Samples.turn "A" "a" (Some 7));
                        CreateBranch 0 None None (py "now")])
           !! branch_id (push_node (Samples.store 2) (Samples.turn "A" "a" (Some 7)))).
Proof.
  apply (resident_branch_known 2 (Samples.store 2)
           [Push (Samples.turn "A" "a" (Some 7));
            CreateBranch 0 None None (py "now")]).
  - reflexivity.
  - vm_compute. apply list_elem_of_here.
Defined.

Lemma comprehension_in_range {A} (d : Deque.deque A) (l : list Z) :
  Forall (λ i, 0 ≤ i < Deque.len d) l →
  ∃ xs, comprehension (Deque.getitem d) (filter (λ i, i < Deque.len d) l) = Ok xs ∧
        length xs = length l.
Proof.
  induction 1 as [|i l Hi _ (xs & IH & Hlen)]; [by exists []|].
  rewrite filter_cons_True by lia. cbn [comprehension].
  destruct (getitem_in_range d i Hi) as (x & -> & _). simpl. rewrite IH. simpl.
  exists (x :: xs). split; [done|]. simpl. by rewrite Hlen.
Qed.

Lemma slice_from_length {A} (l : list A) (n : Z) :
  1 ≤ n → Z.of_nat (length (slice_from l (- n))) = n `min` Z.of_nat (length l).
Proof. intros Hn. rewrite slice_from_neg, last_n_length by done. lia. Qed.

Lemma slice_from_subseteq {A} (l : list A) (start : Z) x :
  x ∈ slice_from l start → x ∈ l.
Proof. unfold slice_from. apply subseteq_drop. Qed.

Lemma fresh_run_invariants (max_size : Z) (self : ConversationStack) (cs : list call) :
  1 ≤ max_size →
  ConversationStack__init__ max_size = Ok self →
  indices_in_range (run self cs) ∧ branches_nonempty (run self cs).
Proof.
  intros H1 Hinit. destruct (init_wf _ _ Hinit) as (Hwf & Hcap & _).
  assert (self = Samples.store max_size) as Hs
    by by apply init_Ok_inv in Hinit as [-> _].
  destruct (store_invariants max_size) as (Hr & Hn & Hk). rewrite <- Hs in *.
  destruct (run_invariants self cs) as (Hrange & Hne & _); try done. lia.
Qed.

Lemma branch_conversation_in_range (self : ConversationStack) (b limit : Z) :
  indices_in_range self →
  ∃ nodes,
    get_branch_conversation self b limit = Ok nodes ∧
    (1 ≤ limit →
     Z.of_nat (length nodes)
     = limit `min` Z.of_nat (length (default [] (branches self !! b)))).
Proof.
  intros Hrange. unfold get_branch_conversation.
  destruct (branches self !! b) as [ids|] eqn:Hb.
  - destruct (comprehension_in_range (stack self)
                (slice_from ids (- limit))) as (nodes & Hok & Hlen).
    { apply Forall_forall. intros i Hi%slice_from_subseteq. by eapply Hrange. }
    exists nodes. split; [done|]. intros Hl. simpl.
    by rewrite Hlen, slice_from_length.
  - exists []. split; [done|]. intros Hl. simpl. lia.
Qed.

(** X3. In a store of capacity at least 1, whatever was pushed, forked or
    evicted, [get_branch_conversation] does not raise, for any branch and
    any limit; for a limit of at least 1 it returns [min limit k] nodes,
    where [k] indices are recorded for the branch. *)
Lemma branch_conversation_ok (max_size : Z) (self : ConversationStack)
    (cs : list call) (b limit : Z) :
  1 ≤ max_size →
  ConversationStack__init__ max_size = Ok self →
  ∃ nodes,
    get_branch_conversation (run self cs) b limit = Ok nodes ∧
    (1 ≤ limit →
     Z.of_nat (length nodes)
     = limit `min` Z.of_nat (length (default [] (branches (run self cs) !! b)))).
Proof.
  intros H1 Hinit. apply branch_conversation_in_range.
  by apply (fresh_run_invariants max_size).
Qed.

Lemma branch_conversation_ok_witness :
  ∃ nodes,
    get_branch_conversation
      (run (Samples.store 2)
         [Push (Samples.turn "A" "a" None); Push (Samples.turn "B" "b" None);
          Push (Samples.turn "C" "c" None)]) 0 2 = Ok nodes ∧
    (1 ≤ 2 →
     Z.of_nat (length nodes)
     = 2 `min` Z.of_nat (length (default []
         (branches (run (Samples.store 2)
            [Push (Samples.turn "A" "a" None); Push (Samples.turn "B" "b" None);
             Push (Samples.turn "C" "c" None)]) !! 0)))).
Proof. apply (branch_conversation_ok 2 (Samples.store 2)); [lia|reflexivity]. Defined.

(** X4. In such a store, with a limit of at least 1, the conversation of a
    branch is empty exactly when nothing was ever recorded for the branch. *)
Lemma branch_conversation_nil_iff (max_size : Z) (self : ConversationStack)
    (cs : list call) (b limit : Z) :
  1 ≤ max_size →
  ConversationStack__init__ max_size = Ok self →
  1 ≤ limit →
  get_branch_conversation (run self cs) b limit = Ok []
  ↔ branches (run self cs) !! b = None.
Proof.
  intros H1 Hinit Hl.
  destruct (fresh_run_invariants max_size self cs H1 Hinit) as [Hrange Hne].
  destruct (branch_conversation_in_range (run self cs) b limit Hrange)
    as (nodes & Hok & Hlen). specialize (Hlen Hl).
  split.
  - intros Hnil. rewrite Hnil in Hok. injection Hok as <-.
    destruct (branches (run self cs) !! b) as [ids|] eqn:Hb; [|done].
    specialize (Hne b ids Hb). simpl in Hlen.
    destruct ids; [done|]. simpl in Hlen. lia.
  - intros Hb. unfold get_branch_conversation. by rewrite Hb.
Qed.

Lemma branch_conversation_nil_iff_witness :
  get_branch_conversation
    (run (Samples.store 2)
       [Push (Samples.turn "A" "a" None); Push (Samples.turn "B" "b" (Some 3))]) 5 20
  = Ok []
  ↔ branches (run (Samples.store 2)
       [Push (Samples.turn "A" "a" None); Push (Samples.turn "B" "b" (Some 3))]) !! 5
    = None.
Proof.
  apply (branch_conversation_nil_iff 2 (Samples.store 2)); [lia|reflexivity|lia].
Defined.

Lemma step_current_branch self c :
  current_branch self ≤ current_branch (step self c) ≤ current_branch self + 1.
Proof.
  destruct c as [a|from ns nu now]; cbn [step].
  - rewrite push_current_branch. lia.
  - destruct (create_branch_cases self from ns nu now)
      as [->|[->|(node & _ & _ & ->)]]; simpl; lia.
Qed.

Lemma run_current_branch self cs :
  current_branch self ≤ current_branch (run self cs)
  ≤ current_branch self + Z.of_nat (length cs).
Proof.
  revert self. induction cs as [|c cs IH]; intros self; [simpl; lia|].
  rewrite run_cons. specialize (IH (step self c)).
  pose proof (step_current_branch self c). simpl length. lia.
Qed.

(** X6. A fork made after any further calls gets a branch id above
    [current_branch] of the earlier store, and the list of the new branch
    holds the index of the new node and nothing else, whatever pushes with
    that branch id had recorded. *)
Lemma fork_id_fresh (self s' : ConversationStack) (cs : list call)
    (from_index index : Z) (new_system_prompt new_user_prompt : option pystr)
    (now : pystr) :
  create_branch (run self cs) from_index new_system_prompt new_user_prompt now
  = (s', Ok (Some index)) →
  current_branch self < current_branch s' ∧
  branches s' !! current_branch s' = Some [index].
Proof.
  intros Hcb. pose proof (run_current_branch self cs) as Hmono.
  destruct (create_branch_cases (run self cs) from_index new_system_prompt
              new_user_prompt now) as [H|[H|(node & _ & _ & H)]];
    rewrite H in Hcb; try done.
  injection Hcb as <- <-. simpl. split; [lia|]. by rewrite lookup_insert_eq.
Qed.

(** A push with the explicit branch id 1, then a fork: the fork takes the
    id 1 and the index recorded by the push is gone from its list. *)
Lemma fork_id_fresh_witness :
  current_branch (Samples.store 5)
  < current_branch (run (Samples.store 5)
                      [Push (Samples.turn "A" "a" (Some 1));
                       CreateBranch 0 None None (py "now")]) ∧
  branches (run (Samples.store 5)
              [Push (Samples.turn "A" "a" (Some 1));
               CreateBranch 0 None None (py "now")])
    !! current_branch (run (Samples.store 5)
                         [Push (Samples.turn "A" "a" (Some 1));
                          CreateBranch 0 None None (py "now")])
  = Some [1].
Proof.
  apply (fork_id_fresh (Samples.store 5) _ [Push (Samples.turn "A" "a" (Some 1))]
           0 1 None None (py "now")).
  reflexivity.
Defined.

(** ** The node of a fork *)

(** X11. A fork from an index in [-len, len) reads the parent as [deque]
    indexing does, a negative index counting from the newest node.  The new
    node takes each prompt from the argument if one is given and from the
    parent otherwise, has the empty string as response, and records
    [from_index] itself as its parent, which for a negative index no
    [get_item] resolves. *)
Lemma create_branch_inherits (self : ConversationStack) (from_index : Z)
    (new_system_prompt new_user_prompt : option pystr) (now : pystr) :
  wf self →
  - Deque.len (stack self) ≤ from_index < Deque.len (stack self) →
  let r := create_branch self from_index new_system_prompt new_user_prompt now in
  let position := if from_index <? 0 then from_index + Deque.len (stack self)
                  else from_index in
  ∃ index node parent,
    r.2 = Ok (Some index) ∧
    get_item self position = Some parent ∧
    get_item r.1 index = Some node ∧
    system_prompt node = from_option Some (system_prompt parent) new_system_prompt ∧
    user_prompt node = from_option Some (user_prompt parent) new_user_prompt ∧
    ai_response node = Some [] ∧
    timestamp node = now ∧
    branch_id node = current_branch self + 1 ∧
    parent_index node = Some from_index ∧
    (from_index < 0 → get_item r.1 from_index = None).
Proof.
  intros [H0 Hle] Hi r position.
  assert (0 ≤ position < Deque.len (stack self)) as Hpos.
  { unfold position. destruct (Z.ltb_spec from_index 0); lia. }
  destruct (getitem_in_range (stack self) position Hpos) as (parent & Hget & Hl).
  assert (Deque.getitem (stack self) from_index = Ok parent) as Hget'.
  { unfold position in Hget. destruct (Z.ltb_spec from_index 0); [|done].
    unfold Deque.getitem in *.
    destruct (Z.ltb_spec from_index 0); [|lia].
    by destruct (Z.ltb_spec (from_index + Deque.len (stack self)) 0); [lia|]. }
  unfold r, create_branch.
  destruct (Z.leb_spec (Deque.len (stack self)) from_index); [lia|].
  simpl. rewrite Hget'. simpl.
  eexists _, _, parent. split; [done|]. split.
  { rewrite get_item_lookup by lia. exact Hl. }
  split.
  { rewrite get_item_lookup.
    - unfold get_stack, Deque.to_list. simpl. apply append_lookup_last; lia.
    - rewrite append_len by done. lia. }
  repeat split. intros Hneg. by apply get_item_negative.
Qed.

(** The last of two nodes is forked with index -1 and a new user prompt. *)
Lemma create_branch_inherits_witness :
  let s := push_all (Samples.store 5)
             [Samples.turn "A" "a" None; Samples.turn "B" "b" None] in
  let r := create_branch s (-1) None (Some (py "again")) (py "now") in
  ∃ index node parent,
    r.2 = Ok (Some index) ∧
    get_item s (if -1 <? 0 then -1 + Deque.len (stack s) else -1) = Some parent ∧
    get_item r.1 index = Some node ∧
    system_prompt node = from_option Some (system_prompt parent) None ∧
    user_prompt node = from_option Some (user_prompt parent) (Some (py "again")) ∧
    ai_response node = Some [] ∧
    timestamp node = py "now" ∧
    branch_id node = current_branch s + 1 ∧
    parent_index node = Some (-1) ∧
    (-1 < 0 → get_item r.1 (-1) = None).
Proof.
  intros s.
  apply (create_branch_inherits s (-1) None (Some (py "again")) (py "now")).
  - split; by vm_compute.
  - split; by vm_compute.
Defined.

(** ** push, get_item and the index of a fork *)

(** X8. Right after [push] returns, [get_item] at the returned index is the
    node just pushed, in every store of capacity at least 1; with capacity
    0 nothing was stored, the returned index is -1 and [get_item] finds
    nothing. *)
Lemma push_then_get_item (self : ConversationStack) (a : push_args) :
  wf self →
  get_item (push self a).1 (push self a).2
  = if 1 <=? capacity self then Some (push_node self a) else None.
Proof.
  intros Hwf. pose proof (push_index_len self a Hwf) as Hidx.
  destruct Hwf as [H0 Hle].
  pose proof (Nat2Z.is_nonneg (length (Deque.items (stack self)))) as Hlen.
  unfold capacity, Deque.len in *.
  destruct (Z.leb_spec 1 (Deque.maxlen (stack self))).
  - apply push_get_item; [by split|]. lia.
  - apply get_item_negative. lia.
Qed.

Lemma push_then_get_item_witness :
  get_item (push (Samples.store 3) (Samples.turn "User1" "Response1" None)).1
    (push (Samples.store 3) (Samples.turn "User1" "Response1" None)).2
  = Some (push_node (Samples.store 3) (Samples.turn "User1" "Response1" None)).
Proof.
  apply (push_then_get_item (Samples.store 3)
           (Samples.turn "User1" "Response1" None)).
  split; by vm_compute.
Defined.

Lemma push_index_fresh_witness :
  (push (push_all (Samples.store 2)
           [Samples.turn "A" "a" None; Samples.turn "B" "b" None;
            Samples.turn "C" "c" None])
     (Samples.turn "D" "d" None)).2
  = Z.of_nat (length [Samples.turn "A" "a" None; Samples.turn "B" "b" None;
                      Samples.turn "C" "c" None]) `min` (2 - 1).
Proof.
  apply (push_index_fresh 2
           [Samples.turn "A" "a" None; Samples.turn "B" "b" None;
            Samples.turn "C" "c" None] (Samples.turn "D" "d" None)).
  lia.
Defined.

(** X12. The index that a successful [create_branch] returns is a lower bound of
    every index that later pushes record for the new branch.  The recorded
    parent, [from_index], is never above that index, and strictly below it
    exactly when the store was not full before the call or [from_index] is
    not the last position. *)
Lemma fork_index_order (self s' : ConversationStack) (from_index index : Z)
    (new_system_prompt new_user_prompt : option pystr) (now : pystr) :
  wf self →
  create_branch self from_index new_system_prompt new_user_prompt now
  = (s', Ok (Some index)) →
  (∀ l i, i ∈ default [] (branches (push_all s' l) !! current_branch s') →
          index ≤ i) ∧
  from_index ≤ index ∧
  (from_index < index ↔
     Deque.len (stack self) < capacity self ∨ from_index < capacity self - 1).
Proof.
  intros Hwf Hcb.
  by destruct (create_branch_parent_index _ _ _ _ _ _ _ Hwf Hcb)
    as (_ & _ & _ & ? & ? & ?).
Qed.

Lemma fork_index_order_witness :
  let s := (push (Samples.store 10)
              (Samples.turn "Initial prompt" "Initial response" None)).1 in
  let s' := (create_branch s 0 (Some (py "New system"))
               (Some (py "Branch prompt")) (py "now")).1 in
  (∀ l i, i ∈ default [] (branches (push_all s' l) !! current_branch s') →
          1 ≤ i) ∧
  0 ≤ 1 ∧
  (0 < 1 ↔ Deque.len (stack s) < capacity s ∨ 0 < capacity s - 1).
Proof.
  intros s s'.
  apply (fork_index_order s s' 0 1 (Some (py "New system"))
           (Some (py "Branch prompt")) (py "now")).
  - split; by vm_compute.
  - reflexivity.
Defined.

Lemma branch_conversation_no_eviction_witness :
  get_branch_conversation
    (push_all (Samples.store 3)
       [Samples.turn "A" "a" (Some 0); Samples.turn "B" "b" (Some 1);
        Samples.turn "C" "c" (Some 0)]) 0 20
  = Ok (last_n (Z.to_nat 20)
          (filter (λ node, branch_id node = 0)
             (push_node (Samples.store 3) <$>
                [Samples.turn "A" "a" (Some 0); Samples.turn "B" "b" (Some 1);
                 Samples.turn "C" "c" (Some 0)]))).
Proof.
  apply (branch_conversation_no_eviction 3
           [Samples.turn "A" "a" (Some 0); Samples.turn "B" "b" (Some 1);
            Samples.turn "C" "c" (Some 0)] 0 20).
  - simpl. lia.
  - lia.
Defined.

(** * Further properties of the message builder *)

(** ** Whitespace around the content *)

Lemma lstrip_id (s : pystr) :
  (∀ c, head s = Some c → isspace c = false) → lstrip s = s.
Proof.
  destruct s as [|c s]; [done|]. intros H. simpl. by rewrite (H c eq_refl).
Qed.

Lemma rstrip_id (s : pystr) :
  (∀ c, last s = Some c → isspace c = false) → rstrip s = s.
Proof.
  intros H. unfold rstrip. rewrite lstrip_id; [apply rev_involutive|].
  intros c Hc. apply H. rewrite <- (rev_involutive s). by rewrite last_rev.
Qed.

Lemma strip_idempotent (s : pystr) : strip (strip s) = strip s.
Proof.
  destruct (strip_stripped_of s) as (pre & post & _ & _ & _ & Hhd & Hlast).
  unfold strip at 1. rewrite lstrip_id by done. by apply rstrip_id.
Qed.

(** X14. [add_line] sees its content only through [strip]: two contents that
    differ in leading and trailing whitespace alone give the same builder,
    and stripping the content before the call changes nothing. *)
Lemma add_line_strip (self : MessageBuilder) (r s t : pystr) :
  strip s = strip t →
  add_line self r (Some s) = add_line self r (Some t) ∧
  add_line self r (Some (strip s)) = add_line self r (Some s).
Proof.
  assert (∀ u v, strip u = strip v →
                 add_line self r (Some u) = add_line self r (Some v)) as Hgen.
  { intros u v Heq. unfold add_line. rewrite !truthy_strip, Heq.
    assert (blank u = blank v) as ->; [|done].
    destruct (blank u) eqn:Hu, (blank v) eqn:Hv; try done.
    - apply strip_nil_iff in Hu. rewrite Heq in Hu.
      apply strip_nil_iff in Hu. congruence.
    - apply strip_nil_iff in Hv. rewrite <- Heq in Hv.
      apply strip_nil_iff in Hv. congruence. }
  intros Heq. split; [by apply Hgen|]. apply Hgen, strip_idempotent.
Qed.

Lemma add_line_strip_witness :
  add_line MessageBuilder__init__ (py "user") (Some (py "  hi  "))
  = add_line MessageBuilder__init__ (py "user") (Some (py "hi ")) ∧
  add_line MessageBuilder__init__ (py "user") (Some (strip (py "  hi  ")))
  = add_line MessageBuilder__init__ (py "user") (Some (py "  hi  ")).
Proof.
  apply (add_line_strip MessageBuilder__init__ (py "user") (py "  hi  ") (py "hi ")).
  reflexivity.
Defined.

(** ** Building from parts of a conversation *)

(** X15. The messages of a conversation are the messages of its first part
    followed by the messages of the rest, whatever the builders held
    before. *)
Lemma build_from_conversation_app (self self' : MessageBuilder)
    (nodes1 nodes2 : list ConversationNode) :
  get_message (build_from_conversation self (nodes1 ++ nodes2))
  = get_message (build_from_conversation self nodes1) ++
    get_message (build_from_conversation self' nodes2).
Proof.
  unfold get_message. rewrite !build_from_conversation_msg.
  unfold assemble. apply bind_app.
Qed.

(** ** The last message of a role *)

Lemma first_content_skip r (l1 l2 : list message) :
  Forall (λ m, role m ≠ r) l1 → first_content r (l1 ++ l2) = first_content r l2.
Proof.
  induction 1 as [|m l1 Hm _ IH]; [done|].
  simpl. by rewrite bool_decide_eq_false_2.
Qed.

Lemma first_content_emit r r' field rest :
  first_content r (rev (emit r' field) ++ rest)
  = if bool_decide (r' = r)
    then default (first_content r rest) (field_content field)
    else first_content r rest.
Proof.
  unfold emit, field_content. destruct field as [s|]; [|by destruct (bool_decide _)].
  destruct (blank s); [by destruct (bool_decide _)|].
  simpl. by destruct (bool_decide (r' = r)).
Qed.

Lemma rev_assemble_turn node :
  rev (assemble_turn node)
  = rev (emit (py "assistant") (ai_response node)) ++
    rev (emit (py "user") (user_prompt node)) ++
    rev (emit (py "system") (system_prompt node)).
Proof. unfold assemble_turn. by rewrite !rev_app_distr, app_assoc. Qed.

(** X16. After [add_user] with content that is not blank the last user message
    is that content stripped; blank content, [add_system] and
    [add_assistant] leave the last user message as it was.  The same holds
    for [get_last_assistant_message] with the roles exchanged. *)
Lemma last_message_after_add (self : MessageBuilder) (c : option pystr) :
  get_last_user_message (add_user self c)
  = default (get_last_user_message self) (field_content c) ∧
  get_last_user_message (add_assistant self c) = get_last_user_message self ∧
  get_last_user_message (add_system self c) = get_last_user_message self ∧
  get_last_assistant_message (add_assistant self c)
  = default (get_last_assistant_message self) (field_content c) ∧
  get_last_assistant_message (add_user self c) = get_last_assistant_message self ∧
  get_last_assistant_message (add_system self c) = get_last_assistant_message self.
Proof.
  unfold get_last_user_message, get_last_assistant_message,
    add_user, add_assistant, add_system.
  rewrite !add_line_msg, !rev_app_distr, !first_content_emit.
  repeat split.
Qed.

(** X17. After [build_from_conversation] the last user message is the stripped
    user prompt of the last node whose user prompt is not blank, and the
    empty string when there is no such node; likewise the last assistant
    message and the responses. *)
Lemma last_message_after_build (self : MessageBuilder)
    (nodes : list ConversationNode) :
  get_last_user_message (build_from_conversation self nodes)
  = default [] (last (omap (λ node, field_content (user_prompt node)) nodes)) ∧
  get_last_assistant_message (build_from_conversation self nodes)
  = default [] (last (omap (λ node, field_content (ai_response node)) nodes)).
Proof.
  unfold get_last_user_message, get_last_assistant_message.
  rewrite build_from_conversation_msg. unfold assemble.
  induction nodes as [|node nodes [IHu IHa]] using rev_ind; [done|].
  rewrite bind_app.
  change ([node] ≫= assemble_turn) with (assemble_turn node ++ []).
  rewrite app_nil_r, rev_app_distr.
  rewrite rev_assemble_turn, <- !app_assoc, !first_content_emit.
  rewrite !omap_app. simpl. rewrite IHu, IHa.
  split.
  - destruct (field_content (user_prompt node)) as [s|]; simpl.
    + by rewrite last_snoc.
    + by rewrite app_nil_r.
  - destruct (field_content (ai_response node)) as [s|]; simpl.
    + by rewrite last_snoc.
    + by rewrite app_nil_r.
Qed.

(** ** What a builder can hold *)

Lemma add_line_clean self role content :
  Forall clean (msg self) → Forall clean (msg (add_line self role content)).
Proof.
  intros Hall. unfold add_line. destruct content as [s|]; [|done].
  destruct (truthy s && truthy (strip s)) eqn:Ht; [|done].
  simpl. apply Forall_app. split; [done|]. constructor; [|done].
  split; simpl; [|apply strip_idempotent].
  apply andb_true_iff in Ht as [_ Ht]. by destruct (strip s).
Qed.

Lemma assemble_clean nodes : Forall clean (assemble nodes).
Proof.
  apply Forall_forall. intros m (node & Hm & _)%list_elem_of_bind.
  assert (∃ r s, blank s = false ∧ m = mkMsg r (strip s)) as (r & s & Hb & ->).
  { unfold assemble_turn in Hm.
    apply elem_of_app in Hm as [Hm|Hm]; [|apply elem_of_app in Hm as [Hm|Hm]];
      apply elem_of_emit in Hm as (s & _ & Hb & ->); by eexists _, s. }
  split; simpl; [|apply strip_idempotent].
  intros Hnil%strip_nil_iff. congruence.
Qed.

Lemma builder_step_clean self c :
  Forall clean (msg self) → Forall clean (msg (builder_step self c)).
Proof.
  intros Hall. destruct c; cbn [builder_step];
    try by apply add_line_clean.
  - constructor.
  - rewrite build_from_conversation_msg. apply assemble_clean.
Qed.

Lemma builder_run_clean self cs :
  Forall clean (msg self) → Forall clean (msg (builder_run self cs)).
Proof.
  revert self. induction cs as [|c cs IH]; intros self Hall; [done|].
  apply IH. by apply builder_step_clean.
Qed.

(** X18. Whatever calls are made on a builder that starts empty, it never holds
    a message whose content is empty or has whitespace at either end. *)
Lemma builder_messages_clean (cs : list builder_call) (m : message) :
  m ∈ get_message (builder_run MessageBuilder__init__ cs) →
  content m ≠ [] ∧ strip (content m) = content m.
Proof.
  intros Hm.
  assert (Forall clean (msg (builder_run MessageBuilder__init__ cs))) as Hall
    by by apply builder_run_clean.
  by apply (proj1 (Forall_forall _ _) Hall).
Qed.

Lemma builder_messages_clean_witness :
  content (mkMsg (py "user") (py "Hello")) ≠ [] ∧
  strip (content (mkMsg (py "user") (py "Hello")))
  = content (mkMsg (py "user") (py "Hello")).
Proof.
  apply (builder_messages_clean
           [AddSystem (Some (py " ")); AddUser (Some (py " Hello "))]).
  vm_compute. apply list_elem_of_here.
Defined.

Lemma elem_of_rev {A} (x : A) (l : list A) : x ∈ rev l ↔ x ∈ l.
Proof. rewrite !list_elem_of_In. symmetry. apply in_rev. Qed.

Lemma first_content_nil_iff r (l : list message) :
  Forall (λ m, content m ≠ []) l →
  first_content r l = [] ↔ Forall (λ m, role m ≠ r) l.
Proof.
  induction 1 as [|m l Hm _ IH]; [done|].
  simpl. destruct (decide (role m = r)) as [Heq|Hne].
  - rewrite bool_decide_eq_true_2 by done. split; [done|].
    by intros [? _]%Forall_cons.
  - rewrite bool_decide_eq_false_2 by done. rewrite IH. split.
    + by constructor.
    + by intros [_ ?]%Forall_cons.
Qed.

(** X19. For a builder that started empty, [get_last_user_message] returns the
    empty string exactly when the builder holds no user message, and
    [get_last_assistant_message] exactly when it holds no assistant
    message: the empty string is never the content of a message. *)
Lemma last_message_empty_iff (cs : list builder_call) :
  let self := builder_run MessageBuilder__init__ cs in
  (get_last_user_message self = []
   ↔ ∀ m, m ∈ get_message self → role m ≠ py "user") ∧
  (get_last_assistant_message self = []
   ↔ ∀ m, m ∈ get_message self → role m ≠ py "assistant").
Proof.
  intros self.
  assert (Forall clean (msg self)) as Hclean by by apply builder_run_clean.
  assert (Forall (λ m, content m ≠ []) (rev (msg self))) as Hall.
  { apply Forall_forall. intros m Hm. apply (proj1 (elem_of_rev _ _)) in Hm.
    by destruct (proj1 (Forall_forall _ _) Hclean m Hm). }
  assert (∀ r, Forall (λ m, role m ≠ r) (rev (msg self))
               ↔ ∀ m, m ∈ get_message self → role m ≠ r) as Hrev.
  { intros r. rewrite Forall_forall. unfold get_message.
    split; intros H m Hm.
    - by apply H, (proj2 (elem_of_rev _ _)).
    - by apply H, (proj1 (elem_of_rev _ _)). }
  unfold get_last_user_message, get_last_assistant_message.
  by rewrite !first_content_nil_iff, !Hrev.
Qed.

(** * Properties of generate_filename *)

Lemma split_last_Some sep s before after :
  split_last sep s = Some (before, after) →
  s = before ++ sep :: after ∧ contains sep after = false.
Proof.
  revert before. induction s as [|c s IH]; intros before; [done|].
  simpl. destruct (split_last sep s) as [[a b]|] eqn:Hs.
  - intros [= <- <-]. destruct (IH a eq_refl) as [-> Hb]. by split.
  - destruct (N.eqb_spec c sep) as [->|Hne]; [|done].
    intros [= <- <-]. split; [done|].
    clear IH. induction s as [|c' s IH']; [done|].
    simpl in *. destruct (split_last sep s) as [[a b]|]; [done|].
    destruct (N.eqb_spec c' sep) as [->|Hne]; [done|].
    simpl. rewrite IH' by done. by destruct (N.eqb_spec sep c'); [congruence|].
Qed.

Lemma split_last_None sep s :
  split_last sep s = None ↔ contains sep s = false.
Proof.
  unfold contains. induction s as [|c s IH]; [done|].
  simpl. destruct (split_last sep s) as [[a b]|].
  - split; [done|]. intros [_ H]%orb_false_iff. by apply IH in H.
  - rewrite N.eqb_sym. destruct (sep =? c)%N; simpl; [done|]. by rewrite <- IH.
Qed.


Lemma contains_split_last sep s :
  contains sep s = true → ∃ before after, split_last sep s = Some (before, after).
Proof.
  intros Hc. destruct (split_last sep s) as [[a b]|] eqn:Hs; [by exists a, b|].
  apply split_last_None in Hs. congruence.
Qed.

Lemma rsplit1_Some sep s before after :
  split_last sep s = Some (before, after) → rsplit1 sep s = [before; after].
Proof. unfold rsplit1. by intros ->. Qed.



(** X22. With neither iteration number nor timestamp, a name that has an
    extension comes back unchanged, and a name without "." gets ".txt";
    the counter is not touched. *)
Lemma generate_filename_plain (counter : Z) (base_name stamp : pystr) :
  generate_filename counter base_name false false stamp
  = Ok (counter,
        if contains dot base_name then base_name else base_name ++ py ".txt").
Proof.
  unfold generate_filename.
  destruct (contains dot base_name) eqn:Hc; [|done].
  destruct (contains_split_last _ _ Hc) as (before & after & Hs).
  rewrite (rsplit1_Some _ _ _ _ Hs). simpl.
  by destruct (split_last_Some _ _ _ _ Hs) as [-> _].
Qed.

Lemma to_N_snoc s c : to_N (s ++ [c]) = (to_N s * 10 + (c - 48))%N.
Proof. unfold to_N. by rewrite foldl_app. Qed.

Lemma to_N_digits_fuel fuel n :
  (n < 2 ^ N.of_nat fuel)%N → to_N (digits_fuel fuel n) = n.
Proof.
  revert n. induction fuel as [|fuel IH]; intros n Hn.
  - simpl in Hn. assert (n = 0%N) as -> by lia. done.
  - cbn [digits_fuel]. destruct (N.ltb_spec n 10).
    + unfold to_N. cbn [foldl].
      by rewrite N.mul_0_l, N.add_0_l, N.add_comm, N.add_sub.
    + rewrite to_N_snoc, IH.
      * rewrite (N.add_comm 48), N.add_sub, N.mul_comm.
        symmetry. apply N.Div0.div_mod.
      * rewrite Nat2N.inj_succ, N.pow_succ_r' in Hn.
        apply N.Div0.div_lt_upper_bound.
        set (p := (2 ^ N.of_nat fuel)%N) in *. lia.
Qed.

Lemma to_N_digits n : to_N (digits n) = n.
Proof.
  unfold digits. apply to_N_digits_fuel.
  rewrite Nat2N.inj_succ, N2Nat.id.
  destruct (decide (n = 0%N)) as [->|Hn]; [done|].
  apply N.log2_spec. lia.
Qed.

Lemma to_N_zero_fill width s : to_N (zero_fill width s) = to_N s.
Proof.
  unfold zero_fill, to_N. rewrite foldl_app. f_equal.
  induction (width - length s)%nat as [|k IH]; [done|]. simpl. exact IH.
Qed.

Lemma format_03d_inj (n m : Z) :
  0 ≤ n → 0 ≤ m → format_03d n = format_03d m → n = m.
Proof.
  intros Hn Hm. unfold format_03d.
  destruct (Z.ltb_spec n 0), (Z.ltb_spec m 0); try lia.
  intros Heq. apply (f_equal to_N) in Heq.
  rewrite !to_N_zero_fill, !to_N_digits in Heq. lia.
Qed.

(** X23. Two calls that ask for the iteration number, for the same name at the
    same clock reading, return different names when the counters differ
    (the counter starts at 0 and is only ever incremented). *)
Lemma generate_filename_counter (c1 c2 : Z) (base_name : pystr)
    (use_timestamp : bool) (stamp name1 name2 : pystr) (c1' c2' : Z) :
  0 ≤ c1 → 0 ≤ c2 → c1 ≠ c2 →
  generate_filename c1 base_name true use_timestamp stamp = Ok (c1', name1) →
  generate_filename c2 base_name true use_timestamp stamp = Ok (c2', name2) →
  name1 ≠ name2.
Proof.
  intros H1 H2 Hne. unfold generate_filename.
  destruct (if contains dot base_name then _ else _) as [[base ext]|e]; [|done].
  simpl. intros [= _ <-] [= _ <-] Heq. apply Hne.
  assert (format_03d (c1 + 1) = format_03d (c2 + 1)) as Hf.
  { apply app_inv_tail in Heq.
    destruct use_timestamp; cbn [join] in Heq;
      do 2 apply app_inv_head in Heq; [|done].
    by apply app_inv_tail in Heq. }
  apply format_03d_inj in Hf; lia.
Qed.

Lemma generate_filename_counter_witness :
  py "output_001_2025-01-01_12-00-00.java" ≠ py "output_002_2025-01-01_12-00-00.java".
Proof.
  apply (generate_filename_counter 0 1 (py "output.java") true
           (py "2025-01-01_12-00-00") _ _ 1 2); [lia|lia|lia| |]; reflexivity.
Defined.

(** The calls of [test_filename_generation], with the counter reset to 0. *)
Example test_filename_generation :
  generate_filename 0 (py "test.py") true false (py "2025-01-01_12-00-00")
  = Ok (1, py "test_001.py") ∧
  generate_filename 1 (py "test") false true (py "2025-01-01_12-00-00")
  = Ok (1, py "test_2025-01-01_12-00-00.txt") ∧
  generate_filename 1 (py "output.java") true true (py "2025-01-01_12-00-00")
  = Ok (2, py "output_002_2025-01-01_12-00-00.java").
Proof. by repeat split. Qed.

(** * Forks and pushes together *)

Lemma step_stack self c :
  wf self →
  get_stack (step self c)
  = last_n (Z.to_nat (capacity self)) (get_stack self ++ option_list (step_node self c)).
Proof.
  intros [H0 Hle]. destruct c as [a|from ns nu now]; cbn [step step_node].
  - unfold get_stack, Deque.to_list. rewrite push_stack. by apply append_items.
  - destruct (create_branch_cases self from ns nu now)
      as [->|[->|(node & _ & Hlen & ->)]]; cbn [fst snd option_list].
    + rewrite app_nil_r. symmetry. apply last_n_all.
      unfold get_stack, Deque.to_list, capacity, Deque.len in *. lia.
    + rewrite app_nil_r. symmetry. apply last_n_all.
      unfold get_stack, Deque.to_list, capacity, Deque.len in *. simpl. lia.
    + rewrite get_item_lookup
        by (cbn [stack]; rewrite append_len by done; lia).
      unfold get_stack, Deque.to_list. cbn [stack].
      rewrite append_lookup_last by lia. cbn [option_list].
      by apply append_items.
Qed.

(** X2. Pushes and forks keep the deque first-in first-out: after any calls on
    a store built by [ConversationStack(max_size)], the resident nodes are
    the last [max_size] of the nodes that the calls appended, in the order
    in which they were appended. *)
Lemma run_fifo (max_size : Z) (self : ConversationStack) (cs : list call) :
  ConversationStack__init__ max_size = Ok self →
  get_stack (run self cs) = last_n (Z.to_nat max_size) (appended self cs).
Proof.
  intros Hinit. destruct (init_wf _ _ Hinit) as (Hwf & Hcap & Hnil & _).
  assert (∀ s, wf s →
            get_stack (run s cs)
            = last_n (Z.to_nat (capacity s)) (get_stack s ++ appended s cs))
    as Hgen.
  { clear. induction cs as [|c cs IH]; intros s Hwf.
    - simpl. rewrite app_nil_r. symmetry. apply last_n_all.
      destruct Hwf. unfold get_stack, Deque.to_list, capacity, Deque.len in *. lia.
    - rewrite run_cons, IH by by apply step_wf.
      rewrite step_capacity, step_stack by done.
      rewrite last_n_app_last_n. cbn [appended]. by rewrite app_assoc. }
  rewrite Hgen by done. by rewrite Hcap, Hnil.
Qed.

Lemma run_fifo_witness :
  get_stack (run (Samples.store 2)
               [Push (Samples.turn "A" "a" None);
                CreateBranch 0 None None (py "now");
                CreateBranch 5 None None (py "now");
                Push (Samples.turn "B" "b" None)])
  = last_n (Z.to_nat 2)
      (appended (Samples.store 2)
         [Push (Samples.turn "A" "a" None);
          CreateBranch 0 None None (py "now");
          CreateBranch 5 None None (py "now");
          Push (Samples.turn "B" "b" None)]).
Proof. apply (run_fifo 2 (Samples.store 2)). reflexivity. Defined.

(** X20. In a store of capacity at least 1, after any calls, [build_from_branch]
    does not raise: it leaves in the builder the assembled messages of the
    conversation of the branch and nothing of what the builder held. *)
Lemma build_from_branch_ok (max_size : Z) (self : ConversationStack)
    (cs : list call) (builder : MessageBuilder) (b limit : Z) :
  1 ≤ max_size →
  ConversationStack__init__ max_size = Ok self →
  ∃ builder' nodes,
    build_from_branch builder (run self cs) b limit = Ok builder' ∧
    get_branch_conversation (run self cs) b limit = Ok nodes ∧
    get_message builder' = assemble nodes.
Proof.
  intros H1 Hinit.
  destruct (fresh_run_invariants max_size self cs H1 Hinit) as [Hrange _].
  destruct (branch_conversation_in_range (run self cs) b limit Hrange)
    as (nodes & Hok & _).
  exists (build_from_conversation builder nodes), nodes.
  unfold build_from_branch. rewrite Hok. simpl.
  split; [done|]. split; [done|]. apply build_from_conversation_msg.
Qed.

Lemma build_from_branch_ok_witness :
  ∃ builder' nodes,
    build_from_branch (add_user MessageBuilder__init__ (Some (py "old")))
      (run (Samples.store 1)
         [Push (Samples.turn "A" "a" None); Push (Samples.turn "B" "b" None)])
      0 20
    = Ok builder' ∧
    get_branch_conversation
      (run (Samples.store 1)
         [Push (Samples.turn "A" "a" None); Push (Samples.turn "B" "b" None)])
      0 20
    = Ok nodes ∧
    get_message builder' = assemble nodes.
Proof.
  apply (build_from_branch_ok 1 (Samples.store 1)); [lia|reflexivity].
Defined.
